(** * Beads agent orchestrator: scheduling and task lifecycle

    A shallow embedding of [scripts/orchestrate.py].  The orchestrator drives
    an external task store (the [bd] command line) and an external agent
    (the [claude] command line) through [subprocess.run]; both are modelled
    as an arbitrary transition function on an abstract outside world, and
    every spawned command line is recorded in a call log, so that statements
    about which store mutations the loop issues are statements about that
    log.

    Conventions.
    - A Python [str] is a [string]; the orchestrator only inspects the
      characters ['-'], ['.'] and [':'] and compares identifiers with [<],
      which on UTF-8 bytes is the code point order.
    - A Python [int] is a [Z].
    - [print] writes to the terminal only and is left out, together with
      [list_available_agents] and [get_project_root], whose results are only
      printed.
    - The text a subprocess writes on its standard output is kept as what
      [str.strip] and [json.loads] make of it (type [Stdout]): blank, rejected
      with JSONDecodeError, rejected with another exception, or decoded.
    - A decoded JSON object is kept as the keys the orchestrator reads, each
      absent or holding a value of the type the [BeadTask] dataclass
      annotates.  An object that holds [null] or a value of another type
      under a key read with a default is not represented: Python would put
      that value in a field annotated [str].
    - The file system look-ups ([agent_exists] and what it calls) are taken
      to answer; an interrupt from the keyboard is taken to arrive while a
      subprocess runs. *)

From Stdlib Require Import String Ascii List ZArith Bool Lia.
From Stdlib Require Import Sorted Permutation DecimalString.
Import ListNotations.

Local Open Scope string_scope.
Local Open Scope Z_scope.

(** ** Strings as Python uses them *)

Module Str.

(** [c in s] for a one-character [c]. *)
Fixpoint contains (c : ascii) (s : string) : bool :=
  match s with
  | EmptyString => false
  | String a s' => Ascii.eqb a c || contains c s'
  end.

(** [s.split(c, 1)]: one piece when [c] does not occur, otherwise the text
    before the first [c] and the text after it. *)
Fixpoint split1 (c : ascii) (s : string) : list string :=
  match s with
  | EmptyString => [EmptyString]
  | String a s' =>
      if Ascii.eqb a c then [EmptyString; s']
      else match split1 c s' with
           | p :: rest => String a p :: rest
           | [] => [String a EmptyString]
           end
  end.

(** [s.split(c)]: all the pieces. *)
Fixpoint split (c : ascii) (s : string) : list string :=
  match s with
  | EmptyString => [EmptyString]
  | String a s' =>
      if Ascii.eqb a c then EmptyString :: split c s'
      else match split c s' with
           | p :: rest => String a p :: rest
           | [] => [String a EmptyString]
           end
  end.

(** [s.count(c)] for a one-character [c]. *)
Fixpoint count (c : ascii) (s : string) : Z :=
  match s with
  | EmptyString => 0
  | String a s' => (if Ascii.eqb a c then 1 else 0) + count c s'
  end.

(** [s.startswith(p)]. *)
Definition startswith (p s : string) : bool := String.prefix p s.

(** [sep.join(parts)]. *)
Definition join (sep : string) (parts : list string) : string :=
  String.concat sep parts.

(** [str(n)] for an integer. *)
Definition of_int (n : Z) : string := NilZero.string_of_int (Z.to_int n).

(** Truth value of a string: the empty string is false. *)
Definition truthy (s : string) : bool := negb (String.eqb s EmptyString).

(** [a < b] and [a <= b] on strings. *)
Definition lt (a b : string) : bool := String.ltb a b.
Definition le (a b : string) : bool := String.leb a b.

(** The characters of [s] equal to [c]; the specification side of
    [count]. *)
Definition occurrences (c : ascii) (s : string) : list ascii :=
  filter (fun a => Ascii.eqb a c) (list_ascii_of_string s).

End Str.

(** ** The task snapshot (class [BeadTask]) *)

Record BeadTask : Type := mkBeadTask {
  id : string;
  title : string;
  description : string;
  labels : list string;
  acceptance : string;
  status : string;
  task_type : string;
  parent_id : option string
}.

(** A dictionary with string keys and a constant content. *)
Definition dict_get (d : list (string * string)) (k : string) : option string :=
  option_map snd (find (fun kv => String.eqb (fst kv) k) d).

Definition AGENT_TYPE_TO_FILE : list (string * string) :=
  [ ("frontend", "dev-frontend");
    ("backend", "dev-backend");
    ("ai", "dev-ai");
    ("sdet", "dev-sdet");
    ("qa", "dev-qa");
    ("general", "dev-general") ].

Definition FALLBACK_PROMPTS : list (string * string) :=
  [ ("frontend", "You are a Frontend Development Agent. Focus on UI components, client-side logic, and user experience.");
    ("backend", "You are a Backend Development Agent. Focus on APIs, server logic, and database operations.");
    ("ai", "You are an AI Specialization Agent. Focus on prompt engineering, LLM integration, and AI pipelines.");
    ("sdet", "You are an SDET Agent. Focus on test infrastructure, E2E testing, and automation frameworks.");
    ("qa", "You are a QA Validation Agent. Focus on test execution, acceptance criteria verification, and bug reporting.");
    ("general", "You are a General Development Agent. Complete the assigned task following best practices.") ].

(** Property [BeadTask.agent_type]: the first label [agent:<kind>] whose kind
    is a key of [AGENT_TYPE_TO_FILE], else ["general"]. *)
Fixpoint agent_type_of_labels (ls : list string) : string :=
  match ls with
  | [] => "general"
  | label :: rest =>
      if Str.startswith "agent:" label then
        let agent := nth 1 (Str.split ":" label) EmptyString in
        match dict_get AGENT_TYPE_TO_FILE agent with
        | Some _ => agent
        | None => agent_type_of_labels rest
        end
      else agent_type_of_labels rest
  end.

Definition agent_type (task : BeadTask) : string :=
  agent_type_of_labels (labels task).

(** Property [BeadTask.agent_name]. *)
Definition agent_name (task : BeadTask) : string :=
  match dict_get AGENT_TYPE_TO_FILE (agent_type task) with
  | Some f => f
  | None => "dev-general"
  end.

(** ** Hierarchy analysis *)

(** [get_hierarchy_depth]: the dots after the first dash of the id. *)
Definition get_hierarchy_depth (task : BeadTask) : Z :=
  let task_id := id task in
  if Str.contains "-" task_id then
    let suffix := nth 1 (Str.split1 "-" task_id) EmptyString in
    Str.count "." suffix
  else 0.

(** [is_leaf_task]: epics never are; otherwise depth two and more. *)
Definition is_leaf_task (task : BeadTask) : bool :=
  if String.eqb (task_type task) "epic" then false
  else 2 <=? get_hierarchy_depth task.

(** ** Sorting by [(-depth, id)]

    [list.sort(key=...)] is stable, and the result of a stable sort is
    determined by the keys: it is modelled by a stable insertion sort. *)

Definition sort_key (task : BeadTask) : Z * string :=
  (- get_hierarchy_depth task, id task).

(** [k1 < k2] on the key tuples. *)
Definition key_lt (k1 k2 : Z * string) : bool :=
  (fst k1 <? fst k2) || ((fst k1 =? fst k2) && Str.lt (snd k1) (snd k2)).

Fixpoint insert_sorted (x : BeadTask) (l : list BeadTask) : list BeadTask :=
  match l with
  | [] => [x]
  | y :: l' =>
      if key_lt (sort_key y) (sort_key x) then y :: insert_sorted x l'
      else x :: y :: l'
  end.

Definition sort_tasks (l : list BeadTask) : list BeadTask :=
  fold_right insert_sorted [] l.

(** The order the sort is meant to produce, in words: [a] may come before
    [b] when [a] is deeper, or as deep with an id that is not greater. *)
Definition deeper_first (a b : BeadTask) : Prop :=
  get_hierarchy_depth b < get_hierarchy_depth a
  \/ (get_hierarchy_depth a = get_hierarchy_depth b /\ Str.le (id a) (id b) = true).

(** ** The outside world: subprocesses and their output *)

(** A decoded JSON object, as far as the orchestrator reads it: the value of
    each key it looks up, [None] when the key is absent.  For the keys read
    without a default ([parent], [parent_id], [session_id]) [None] stands for
    [null] too, which [item.get(key)] does not tell from an absent key.  For
    the keys read with a default, [null] has no image here (see the
    conventions above). *)
Record JsonObject : Type := mkJsonObject {
  j_id : option string;
  j_title : option string;
  j_description : option string;
  j_labels : option (list string);
  j_acceptance : option string;
  j_status : option string;
  j_issue_type : option string;
  j_type : option string;
  j_parent : option string;
  j_parent_id : option string;
  j_session_id : option string
}.

(** What [json.loads] returns: a list (each element an object, or [None] for
    an element that is no object), an object, or another JSON value. *)
Inductive JsonData : Type :=
| JList (items : list (option JsonObject))
| JDict (o : JsonObject)
| JOther.

Inductive exn : Type :=
| OSError           (* the executable could not be started *)
| TimeoutExpired    (* [subprocess.TimeoutExpired] *)
| AttributeError    (* [.get] on a JSON value that is no object *)
| IndexError        (* [data[0]] on an empty list *)
| RecursionError    (* [json.loads] on text nested beyond the recursion limit *)
| ValueError        (* [json.loads] on an integer of more than 4300 digits *)
| UnicodeDecodeError (* [subprocess.run] on output that is no text *)
| KeyboardInterrupt (* an interrupt from the keyboard *)
| SystemExit        (* [sys.exit(1)] *).

(** The exception is an instance of [Exception], which [except Exception]
    catches; [KeyboardInterrupt] and [SystemExit] are not. *)
Definition is_exception (e : exn) : bool :=
  match e with
  | KeyboardInterrupt => false
  | SystemExit => false
  | _ => true
  end.

(** The ways [json.loads] fails other than with JSONDecodeError. *)
Inductive LoadFailure : Type :=
| TooDeep           (* RecursionError: brackets nested about a thousand deep,
                       closed or not *)
| TooManyDigits     (* ValueError: an integer of more than 4300 digits *).

Definition exn_of_load (f : LoadFailure) : exn :=
  match f with
  | TooDeep => RecursionError
  | TooManyDigits => ValueError
  end.

(** Standard output of a finished subprocess. *)
Inductive Stdout : Type :=
| Blank                  (* [stdout.strip()] is empty *)
| NotJson                (* not blank, and [json.loads] raises JSONDecodeError *)
| Json (data : JsonData) (* [json.loads] returns [data] *)
| Unloadable (f : LoadFailure)
                         (* not blank, and [json.loads] raises the exception
                            of [f], which is no JSONDecodeError *).

Record CompletedProcess : Type := mkCompletedProcess {
  returncode : Z;
  stdout : Stdout
}.

Inductive SubprocessResult : Type :=
| Returned (p : CompletedProcess)
| Raised (e : exn).

(** ** State, errors and the call log *)

Inductive Result (A : Type) : Type :=
| Ok (a : A)
| Raise (e : exn).
Arguments Ok {A} a.
Arguments Raise {A} e.

(** The task store, the file system and the agent, seen from outside:
    [subprocess_run argv timeout] is [subprocess.run(argv, timeout=...)], and
    [agent_file_exists name] is [(get_agents_dir() / f"{name}.md").exists()]. *)
Class Outside : Type := {
  World : Type;
  subprocess_run : list string -> option Z -> World -> SubprocessResult * World;
  agent_file_exists : string -> World -> bool
}.

Section Monad.

Context {outside : Outside}.

(** The state threaded through the program: the world, and the command
    lines spawned so far, oldest first. *)
Record State : Type := mkState {
  world : World;
  calls : list (list string)
}.

Definition M (A : Type) : Type := State -> Result A * State.

Definition ret {A : Type} (a : A) : M A := fun s => (Ok a, s).

Definition bind {A B : Type} (m : M A) (k : A -> M B) : M B :=
  fun s =>
    match m s with
    | (Ok a, s') => k a s'
    | (Raise e, s') => (Raise e, s')
    end.

Definition raise {A : Type} (e : exn) : M A := fun s => (Raise e, s).

Definition lift {A : Type} (r : Result A) : M A := fun s => (r, s).

End Monad.

Notation "x <- m ;; k" := (bind m (fun x => k))
  (at level 61, m at next level, right associativity).
Notation "' p <- m ;; k" := (bind m (fun x => let 'p := x in k))
  (at level 61, p pattern, m at next level, right associativity).

Section Orchestrator.

Context {outside : Outside}.

(** Spawn a command and log it. *)
Definition spawn (cmd : list string) (timeout : option Z) : M SubprocessResult :=
  fun s =>
    let (r, w) := subprocess_run cmd timeout (world s) in
    (Ok r, {| world := w; calls := calls s ++ [cmd] |}).

(** The state after spawning [cmd] from [s] when the world moves to [w]. *)
Definition after (s : State) (cmd : list string) (w : World) : State :=
  {| world := w; calls := calls s ++ [cmd] |}.

(** [run_command]: the finished process; an exception of [subprocess.run]
    is raised again. *)
Definition run_command (cmd : list string) : M CompletedProcess :=
  r <- spawn cmd None ;;
  match r with
  | Returned p => ret p
  | Raised e => raise e
  end.

(** [agent_exists]: a look at the file system. *)
Definition agent_exists (name : string) : M bool :=
  fun s => (Ok (agent_file_exists name (world s)), s).

(** ** Reading task snapshots *)

Definition get_or {A : Type} (v : option A) (default : A) : A :=
  match v with Some a => a | None => default end.

(** The [BeadTask(...)] built from one decoded item; [parent] is the value
    looked up for the parent, which differs between the callers. *)
Definition task_of_item (item : JsonObject) (parent : option string) : BeadTask :=
  {| id := get_or (j_id item) EmptyString;
     title := get_or (j_title item) EmptyString;
     description := get_or (j_description item) EmptyString;
     labels := get_or (j_labels item) [];
     acceptance := get_or (j_acceptance item) EmptyString;
     status := get_or (j_status item) EmptyString;
     task_type := get_or (j_issue_type item) (get_or (j_type item) "task");
     parent_id := parent |}.

(** [items = data if isinstance(data, list) else [data]]. *)
Definition items_of (data : JsonData) : list (option JsonObject) :=
  match data with
  | JList items => items
  | JDict o => [Some o]
  | JOther => [None]
  end.

(** The loop [for item in items: tasks.append(BeadTask(...))]. *)
Fixpoint tasks_of_items (items : list (option JsonObject)) : Result (list BeadTask) :=
  match items with
  | [] => Ok []
  | None :: _ => Raise AttributeError
  | Some item :: rest =>
      match tasks_of_items rest with
      | Ok tasks => Ok (task_of_item item (j_parent item) :: tasks)
      | Raise e => Raise e
      end
  end.

(** The body shared by [get_ready_tasks], [get_in_progress_tasks] and
    [get_child_tasks] once the command line is built. *)
Definition fetch_tasks (cmd : list string) : M (list BeadTask) :=
  result <- run_command cmd ;;
  if negb (returncode result =? 0) then ret []
  else match stdout result with
       | Blank => ret []
       | NotJson => ret []
       | Json data => lift (tasks_of_items (items_of data))
       | Unloadable f => raise (exn_of_load f)
       end.

Definition with_label (cmd : list string) (label_filter : option string) : list string :=
  match label_filter with
  | Some l => if Str.truthy l then cmd ++ ["--label"; l] else cmd
  | None => cmd
  end.

Definition get_ready_tasks (label_filter : option string) (limit : Z) : M (list BeadTask) :=
  fetch_tasks
    (with_label ["bd"; "ready"; "--json"; "--limit"; Str.of_int limit] label_filter).

Definition get_in_progress_tasks (label_filter : option string) (limit : Z) : M (list BeadTask) :=
  fetch_tasks
    (with_label ["bd"; "list"; "--status"; "in_progress"; "--json"; "--limit"; Str.of_int limit]
                label_filter).

Definition child_query (parent : string) : list string :=
  ["bd"; "list"; "--parent"; parent; "--all"; "--json"; "--limit"; "100"].

Definition get_child_tasks (parent : string) : M (list BeadTask) :=
  fetch_tasks (child_query parent).

(** [get_task_details]: no blank test here, a blank output fails to
    decode. *)
Definition get_task_details (task_id : string) : M (option BeadTask) :=
  result <- run_command ["bd"; "show"; task_id; "--json"] ;;
  if negb (returncode result =? 0) then ret None
  else match stdout result with
       | Blank => ret None
       | NotJson => ret None
       | Json data =>
           item <- match data with
                   | JList [] => raise IndexError
                   | JList (Some o :: _) => ret o
                   | JList (None :: _) => raise AttributeError
                   | JDict o => ret o
                   | JOther => raise AttributeError
                   end ;;
           ret (Some (task_of_item item (j_parent_id item)))
       | Unloadable f => raise (exn_of_load f)
       end.

(** ** The dependency gate *)

Definition terminal (task : BeadTask) : bool :=
  String.eqb (status task) "done" || String.eqb (status task) "closed".

(** The loop [for child in children: if child.status not in (...): return False]. *)
Fixpoint children_loop (children : list BeadTask) : bool :=
  match children with
  | [] => true
  | child :: rest => if negb (terminal child) then false else children_loop rest
  end.

Definition all_children_complete (parent : string) : M bool :=
  children <- get_child_tasks parent ;;
  match children with
  | [] => ret true
  | _ :: _ => ret (children_loop children)
  end.


(** ** The scheduler *)

(** The loop [for task in in_progress] of [get_next_prioritized_task]: the
    first leaf, or the first task that is no leaf and whose children are all
    complete; [None] when the loop runs to its end. *)
Fixpoint resume_walk (in_progress : list BeadTask) : M (option BeadTask) :=
  match in_progress with
  | [] => ret None
  | task :: rest =>
      if is_leaf_task task then ret (Some task)
      else
        complete <- all_children_complete (id task) ;;
        if complete then ret (Some task) else resume_walk rest
  end.

(** [skipped l s s']: from state [s], every task of [l] in turn is no leaf
    and fails the gate, which leaves state [s']. *)
Inductive skipped : list BeadTask -> State -> State -> Prop :=
| skipped_nil (s : State) : skipped [] s s
| skipped_cons (task : BeadTask) (rest : list BeadTask) (s s1 s2 : State) :
    is_leaf_task task = false ->
    all_children_complete (id task) s = (Ok false, s1) ->
    skipped rest s1 s2 ->
    skipped (task :: rest) s s2.

(** The block under [if resume:]; [None] when it falls through. *)
Definition resume_candidate (label_filter : option string) : M (option BeadTask) :=
  in_progress <- get_in_progress_tasks label_filter 50 ;;
  match in_progress with
  | [] => ret None
  | _ :: _ => resume_walk (sort_tasks in_progress)
  end.

(** The fall back to ready tasks. *)
Definition ready_candidate (label_filter : option string) : M (option BeadTask * bool) :=
  tasks <- get_ready_tasks label_filter 50 ;;
  match tasks with
  | [] => ret (None, false)
  | _ :: _ =>
      match sort_tasks tasks with
      | first :: _ => ret (Some first, false)
      | [] => raise IndexError
      end
  end.

Definition get_next_prioritized_task (label_filter : option string) (resume : bool)
  : M (option BeadTask * bool) :=
  if resume then
    found <- resume_candidate label_filter ;;
    match found with
    | Some task => ret (Some task, true)
    | None => ready_candidate label_filter
    end
  else ready_candidate label_filter.

(** ** Status mutations *)

Definition claim_command (task_id : string) : list string :=
  ["bd"; "update"; task_id; "--claim"].

Definition claim_task (task_id : string) : M bool :=
  result <- run_command (claim_command task_id) ;;
  ret (returncode result =? 0).

Definition complete_command (task_id : string) (session_id : option string) : list string :=
  ["bd"; "update"; task_id; "--status"; "closed"]
  ++ match session_id with
     | Some sid => if Str.truthy sid then ["--session"; sid] else []
     | None => []
     end.

Definition complete_task (task_id : string) (session_id : option string) : M bool :=
  result <- run_command (complete_command task_id session_id) ;;
  ret (returncode result =? 0).

Definition fail_command (task_id reason : string) : list string :=
  ["bd"; "update"; task_id; "--status"; "blocked"; "--notes"; "Agent failed: " ++ reason].

Definition fail_task (task_id reason : string) : M bool :=
  result <- run_command (fail_command task_id reason) ;;
  ret (returncode result =? 0).

(** ** Running the agent *)

(** The double quote character. *)
Definition dquote : string := String (ascii_of_nat 34) EmptyString.

Definition build_claude_prompt (task : BeadTask) : string :=
  Str.join (String (ascii_of_nat 10) EmptyString)
    ([ "## Task: " ++ title task;
       "**Task ID:** " ++ id task;
       EmptyString;
       "## Description";
       (if Str.truthy (description task) then description task
        else "(No description provided)");
       EmptyString ]
     ++ (if Str.truthy (acceptance task)
         then [ "## Acceptance Criteria"; acceptance task; EmptyString ] else [])
     ++ [ "## Instructions";
          "1. Read the design document referenced in the description above";
          "2. Implement the requirements as specified";
          "3. Ensure all acceptance criteria are met";
          "4. Run relevant tests to verify your implementation";
          EmptyString;
          "## IMPORTANT: Progress Tracking";
          EmptyString;
          "You have a **30-minute timeout**. To ensure your work isn't lost if time runs out:";
          EmptyString;
          "**Record progress notes periodically** using the beads CLI:";
          "```bash";
          "bd update " ++ id task ++ " --notes " ++ dquote
            ++ "Progress: <describe what you've completed and what remains>" ++ dquote;
          "```";
          EmptyString;
          "**When to record progress:**";
          "- After completing each major step (reading design doc, writing tests, implementing code)";
          "- After every 5-10 minutes of work";
          "- Before starting any long-running operation (builds, test suites)";
          "- When you encounter blockers or make key decisions";
          EmptyString;
          "**What to include in progress notes:**";
          "- Files you've created or modified";
          "- Tests written and their status";
          "- Key implementation decisions made";
          "- What remains to be done";
          "- Any blockers or issues encountered";
          EmptyString;
          "This ensures that if a fresh agent picks up this task, it can continue from where you left off.";
          EmptyString;
          "Begin working on this task now." ]).

(** The command line [run_agent] builds. *)
Definition claude_command (task : BeadTask) (use_agent_file : bool)
  (model_override : option string) : list string :=
  ["claude"; "--print"; "--output-format"; "json"; "--dangerously-skip-permissions"]
  ++ (if use_agent_file then ["--agent"; agent_name task]
      else ["--append-system-prompt";
            get_or (dict_get FALLBACK_PROMPTS (agent_type task))
                   (get_or (dict_get FALLBACK_PROMPTS "general") EmptyString)])
  ++ match model_override with
     | Some m => if Str.truthy m then ["--model"; m] else []
     | None => []
     end
  ++ [build_claude_prompt task].

(** [run_agent]: [(success, session_id, timed_out)].  A finished agent whose
    output decodes to something that is no object makes [output.get] raise,
    and one whose output [json.loads] rejects with another exception than
    JSONDecodeError raises that exception; the last [except Exception] turns
    both into a failure.  That handler also takes every exception of
    [subprocess.run] that is an [Exception], and lets the others through. *)
Definition run_agent (task : BeadTask) (dry_run : bool) (model_override : option string)
  (timeout_seconds : Z) : M (bool * option string * bool) :=
  use_agent_file <- agent_exists (agent_name task) ;;
  if dry_run then ret (true, None, false)
  else
    r <- spawn (claude_command task use_agent_file model_override) (Some timeout_seconds) ;;
    match r with
    | Returned result =>
        if negb (returncode result =? 0) then ret (false, None, false)
        else match stdout result with
             | Json (JDict output) => ret (true, j_session_id output, false)
             | Json (JList _) => ret (false, None, false)
             | Json JOther => ret (false, None, false)
             | Blank => ret (true, None, false)
             | NotJson => ret (true, None, false)
             | Unloadable _ => ret (false, None, false)
             end
    | Raised TimeoutExpired => ret (false, None, true)
    | Raised e => if is_exception e then ret (false, None, false) else raise e
    end.

(** ** The orchestration loop *)

Record Config : Type := mkConfig {
  max_iterations : option Z;
  label_filter : option string;
  dry_run : bool;
  model_override : option string;
  auto_complete : bool;
  resume : bool;
  timeout_seconds : Z
}.

(** How one pass of [while True] ends: [break], or the next pass with the
    new value of [iteration]. *)
Inductive Step : Type :=
| Break
| Next (iteration : Z).

Definition timeout_note_command (task_id : string) (timeout_seconds : Z) : list string :=
  ["bd"; "update"; task_id; "--notes";
   "Agent timed out after " ++ Str.of_int (timeout_seconds / 60)
     ++ " minutes. Check progress notes for partial work."].

(** The branch [if not is_leaf:] of the loop body. *)
Definition close_parent (cfg : Config) (iteration : Z) (task : BeadTask) (is_resumed : bool)
  : M Step :=
  if negb (dry_run cfg) then
    claimed <- (if negb is_resumed then claim_task (id task) else ret true) ;;
    if negb claimed then ret (Next (iteration + 1))
    else
      _ <- (if auto_complete cfg then
              closed <- complete_task (id task) None ;;
              if negb closed then
                _ <- fail_task (id task) "Failed to mark task as done" ;; ret tt
              else ret tt
            else ret tt) ;;
      ret (Next (iteration + 1))
  else ret (Next (iteration + 1)).

(** The block [# Update task status] of the loop body. *)
Definition update_status (cfg : Config) (task : BeadTask)
  (success : bool) (session_id : option string) (timed_out : bool) : M unit :=
  if negb (dry_run cfg) then
    if success && auto_complete cfg then
      closed <- complete_task (id task) session_id ;;
      if negb closed then
        _ <- fail_task (id task) "Failed to mark task as done after successful agent run" ;;
        ret tt
      else ret tt
    else if timed_out then
      _ <- run_command (timeout_note_command (id task) (timeout_seconds cfg)) ;; ret tt
    else if negb success then
      _ <- fail_task (id task) "Agent execution failed" ;; ret tt
    else ret tt
  else ret tt.

(** The rest of the loop body for a leaf: claim, run the agent, update. *)
Definition run_leaf (cfg : Config) (iteration : Z) (task : BeadTask) (is_resumed : bool)
  : M Step :=
  claimed <- (if negb (dry_run cfg) then
                if is_resumed then ret true else claim_task (id task)
              else ret true) ;;
  if negb claimed then ret (Next (iteration + 1))
  else
    '(success, session_id, timed_out) <-
      run_agent task (dry_run cfg) (model_override cfg) (timeout_seconds cfg) ;;
    _ <- update_status cfg task success session_id timed_out ;;
    ret (Next (iteration + 1)).

(** The loop body from the selected task on. *)
Definition process_task (cfg : Config) (iteration : Z) (task : BeadTask) (is_resumed : bool)
  : M Step :=
  if negb (is_leaf_task task) then close_parent cfg iteration task is_resumed
  else run_leaf cfg iteration task is_resumed.

(** One pass of [while True]. *)
Definition orchestrate_pass (cfg : Config) (iteration : Z) : M Step :=
  if match max_iterations cfg with
     | Some n => n <=? iteration
     | None => false
     end
  then ret Break
  else
    '(selected, is_resumed) <- get_next_prioritized_task (label_filter cfg) (resume cfg) ;;
    match selected with
    | None => ret Break
    | Some task =>
        full_task <- get_task_details (id task) ;;
        process_task cfg iteration (get_or full_task task) is_resumed
    end.

(** [while True], unfolded [fuel] times; [None] when the fuel runs out before
    the loop ends, otherwise the final value of [iteration]. *)
Fixpoint orchestrate_loop (fuel : nat) (cfg : Config) (iteration : Z) : M (option Z) :=
  match fuel with
  | O => ret None
  | S fuel' =>
      step <- orchestrate_pass cfg iteration ;;
      match step with
      | Break => ret (Some iteration)
      | Next iteration' => orchestrate_loop fuel' cfg iteration'
      end
  end.

Definition orchestrate (fuel : nat) (cfg : Config) : M (option Z) :=
  orchestrate_loop fuel cfg 0.

(** ** Vocabulary for statements about the call log *)


(** The command line is one of the store's read queries: [bd ready],
    [bd list] or [bd show]. *)
Definition is_read_query (argv : list string) : bool :=
  match argv with
  | prog :: verb :: _ =>
      String.eqb prog "bd"
      && (String.eqb verb "ready" || String.eqb verb "list" || String.eqb verb "show")
  | _ => false
  end.

(** [m] spawns read queries only, from every state and whatever it returns. *)
Definition only_reads {A : Type} (m : M A) : Prop :=
  forall s : State,
    exists new : list (list string),
      calls (snd (m s)) = (calls s ++ new)%list
      /\ Forall (fun argv => is_read_query argv = true) new.

(** The claim step of the loop body: nothing for a resumed task, otherwise a
    successful [claim_task]. *)
Definition claimed (task : BeadTask) (is_resumed : bool) (s s1 : State) : Prop :=
  (is_resumed = true /\ s1 = s)
  \/ (is_resumed = false /\ claim_task (id task) s = (Ok true, s1)).

(** [m] spawns only command lines that satisfy [P]. *)
Definition spawns_only {A : Type} (P : list string -> bool) (m : M A) : Prop :=
  forall s : State,
    exists new : list (list string),
      calls (snd (m s)) = (calls s ++ new)%list
      /\ Forall (fun argv => P argv = true) new.

(** Every value [m] returns satisfies [Q]. *)
Definition yields {A : Type} (Q : A -> Prop) (m : M A) : Prop :=
  forall (s s' : State) (a : A), m s = (Ok a, s') -> Q a.

(** [bd update <id> --claim]. *)
Definition is_claim (argv : list string) : bool :=
  match argv with
  | prog :: verb :: _ :: flag :: _ =>
      String.eqb prog "bd" && String.eqb verb "update" && String.eqb flag "--claim"
  | _ => false
  end.

(** [bd update <id> --status closed ...]. *)
Definition is_close (argv : list string) : bool :=
  match argv with
  | prog :: verb :: _ :: flag :: value :: _ =>
      String.eqb prog "bd" && String.eqb verb "update"
      && String.eqb flag "--status" && String.eqb value "closed"
  | _ => false
  end.

(** The agent command line, or a [bd update] of the task [task_id]. *)
Definition concerns (task_id : string) (argv : list string) : bool :=
  match argv with
  | prog :: rest =>
      String.eqb prog "claude"
      || match rest with
         | verb :: i :: _ =>
             String.eqb prog "bd" && String.eqb verb "update" && String.eqb i task_id
         | _ => false
         end
  | [] => false
  end.

(** ** The command line entry point *)

(** The parsed arguments of [main]. *)
Record Args : Type := mkArgs {
  arg_max_iterations : option Z;
  arg_label : option string;
  arg_dry_run : bool;
  arg_model : string;
  arg_no_auto_complete : bool;
  arg_single : bool;
  arg_list_agents : bool;
  arg_resume : bool;
  arg_timeout : Z
}.

(** The arguments [main] hands to [orchestrate]. *)
Definition main_config (args : Args) : Config :=
  {| max_iterations :=
       if arg_single args || arg_dry_run args then Some 1 else arg_max_iterations args;
     label_filter := arg_label args;
     dry_run := arg_dry_run args;
     model_override := Some (arg_model args);
     auto_complete := negb (arg_no_auto_complete args);
     resume := arg_resume args;
     timeout_seconds := arg_timeout args |}.

(** How [main] ends: after listing the agents, or after [orchestrate], whose
    result [main] drops.  An interrupt from the keyboard that comes out of
    [orchestrate] becomes [sys.exit(1)]. *)
Inductive MainEnd : Type :=
| Listed
| Orchestrated (processed : option Z).

Definition main (fuel : nat) (args : Args) : M MainEnd :=
  if arg_list_agents args then ret Listed
  else
    fun s =>
      match orchestrate fuel (main_config args) s with
      | (Ok processed, s') => (Ok (Orchestrated processed), s')
      | (Raise KeyboardInterrupt, s') => (Raise SystemExit, s')
      | (Raise e, s') => (Raise e, s')
      end.

End Orchestrator.

(** ** The project root *)

(** An absolute path as its components, innermost first; the root is the
    empty list, and it is its own parent. *)
Definition Path : Type := list string.

Definition path_parent (p : Path) : Path := tl p.

(** The loop [while current != current.parent] of [get_project_root];
    [is_dir p] is [p.is_dir()], and [None] is the loop running to its end. *)
Fixpoint walk_up (is_dir : Path -> bool) (current : Path) : option Path :=
  match current with
  | [] => None
  | _ :: up =>
      if is_dir (".claude" :: current) then Some current
      else walk_up is_dir up
  end.

Definition get_project_root (is_dir : Path -> bool) (cwd : Path) : Path :=
  match walk_up is_dir cwd with
  | Some root => root
  | None => cwd
  end.

(** [get_agents_dir]. *)
Definition get_agents_dir (is_dir : Path -> bool) (cwd : Path) : Path :=
  "agents" :: ".claude" :: get_project_root is_dir cwd.

(** ** A small task store to run the orchestrator against

    [Demo.run] answers the [bd] command lines the orchestrator spawns from a
    list of tasks, and plays a fixed behaviour for the agent.  [refused]
    names the command lines that fail with exit code 1. *)

Module Demo.

Record Store : Type := mkStore {
  tasks : list BeadTask;
  agent : SubprocessResult;
  agent_files : list string;
  refused : list string -> bool
}.

Definition item_of (t : BeadTask) : JsonObject :=
  {| j_id := Some (id t);
     j_title := Some (title t);
     j_description := Some (description t);
     j_labels := Some (labels t);
     j_acceptance := Some (acceptance t);
     j_status := Some (status t);
     j_issue_type := Some (task_type t);
     j_type := None;
     j_parent := parent_id t;
     j_parent_id := parent_id t;
     j_session_id := None |}.

Definition answer (ts : list BeadTask) : SubprocessResult :=
  Returned {| returncode := 0;
              stdout := Json (JList (map (fun t => Some (item_of t)) ts)) |}.

Definition done : SubprocessResult :=
  Returned {| returncode := 0; stdout := Blank |}.

Definition failed : SubprocessResult :=
  Returned {| returncode := 1; stdout := Blank |}.

Definition has_status (st : string) (t : BeadTask) : bool := String.eqb (status t) st.

Definition has_id (i : string) (t : BeadTask) : bool := String.eqb (id t) i.

Definition has_parent (p : string) (t : BeadTask) : bool :=
  match parent_id t with
  | Some q => String.eqb q p
  | None => false
  end.

Definition set_status (i st : string) (t : BeadTask) : BeadTask :=
  if has_id i t then
    {| id := id t; title := title t; description := description t;
       labels := labels t; acceptance := acceptance t; status := st;
       task_type := task_type t; parent_id := parent_id t |}
  else t.

Definition with_tasks (w : Store) (ts : list BeadTask) : Store :=
  {| tasks := ts; agent := agent w; agent_files := agent_files w; refused := refused w |}.

Definition update (rest : list string) (w : Store) : SubprocessResult * Store :=
  match rest with
  | i :: flag :: more =>
      if String.eqb flag "--claim" then
        if existsb (fun t => has_id i t && has_status "ready" t) (tasks w)
        then (done, with_tasks w (map (set_status i "in_progress") (tasks w)))
        else (failed, w)
      else if String.eqb flag "--status" then
        match more with
        | st :: _ =>
            if existsb (has_id i) (tasks w)
            then (done, with_tasks w (map (set_status i st) (tasks w)))
            else (failed, w)
        | [] => (failed, w)
        end
      else if String.eqb flag "--notes" then (done, w)
      else (failed, w)
  | _ => (failed, w)
  end.

Definition run (argv : list string) (timeout : option Z) (w : Store)
  : SubprocessResult * Store :=
  if refused w argv then (failed, w)
  else
    match argv with
    | prog :: verb :: rest =>
        if String.eqb prog "claude" then (agent w, w)
        else if String.eqb verb "ready" then
          (answer (filter (has_status "ready") (tasks w)), w)
        else if String.eqb verb "list" then
          match rest with
          | flag :: v :: _ =>
              if String.eqb flag "--status" then (answer (filter (has_status v) (tasks w)), w)
              else if String.eqb flag "--parent" then (answer (filter (has_parent v) (tasks w)), w)
              else (failed, w)
          | _ => (failed, w)
          end
        else if String.eqb verb "show" then
          match rest with
          | i :: _ => (answer (filter (has_id i) (tasks w)), w)
          | [] => (failed, w)
          end
        else if String.eqb verb "update" then update rest w
        else (failed, w)
    | _ => (failed, w)
    end.

#[export] Instance outside : Outside :=
  {| World := Store;
     subprocess_run := run;
     agent_file_exists := fun name w => existsb (String.eqb name) (agent_files w) |}.

Definition task (i ty st : string) (parent : option string) : BeadTask :=
  {| id := i; title := i; description := EmptyString; labels := [];
     acceptance := EmptyString; status := st; task_type := ty; parent_id := parent |}.

Definition start (ts : list BeadTask) (a : SubprocessResult) (r : list string -> bool)
  : @State outside :=
  {| world := {| tasks := ts; agent := a; agent_files := []; refused := r |};
     calls := [] |}.

Definition nothing_refused (argv : list string) : bool := false.

(** The command lines that close a task. *)
Definition closes (argv : list string) : bool :=
  existsb (String.eqb "closed") argv.

Definition config (dry resumed : bool) (limit : option Z) : Config :=
  {| max_iterations := limit; label_filter := None; dry_run := dry;
     model_override := Some "sonnet"; auto_complete := true; resume := resumed;
     timeout_seconds := 1800 |}.

(** A ready parent task and its only child, a ready leaf. *)
Definition parent_and_leaf : list BeadTask :=
  [ task "fb-x0.1" "task" "ready" (Some "fb-x0");
    task "fb-x0.1.1" "task" "ready" (Some "fb-x0.1") ].

(** Four ready tasks of depths 0, 2, 1 and 2. *)
Definition ready_0212 : list BeadTask :=
  [ task "fb-x0" "epic" "ready" None;
    task "fb-x0.1.2" "task" "ready" (Some "fb-x0.1");
    task "fb-x0.1" "task" "ready" (Some "fb-x0");
    task "fb-x0.1.1" "task" "ready" (Some "fb-x0.1") ].

(** A parent in progress with one child closed and one child in progress. *)
Definition family_in_progress : list BeadTask :=
  [ task "fb-x0.1" "task" "in_progress" (Some "fb-x0");
    task "fb-x0.1.1" "task" "closed" (Some "fb-x0.1");
    task "fb-x0.1.2" "task" "in_progress" (Some "fb-x0.1") ].

(** The command line lists the children of a task. *)
Definition lists_children (argv : list string) : bool :=
  existsb (String.eqb "--parent") argv.

(** The command line shows a task, and the one that lists the ready tasks. *)
Definition shows (argv : list string) : bool :=
  existsb (String.eqb "show") argv.

Definition readies (argv : list string) : bool :=
  existsb (String.eqb "ready") argv.

(** A configuration with auto-complete off. *)
Definition manual (resumed : bool) (limit : option Z) : Config :=
  {| max_iterations := limit; label_filter := None; dry_run := false;
     model_override := Some "sonnet"; auto_complete := false; resume := resumed;
     timeout_seconds := 1800 |}.

(** The arguments of [main] for a dry run. *)
Definition dry_args : Args :=
  {| arg_max_iterations := None; arg_label := None; arg_dry_run := true;
     arg_model := "sonnet"; arg_no_auto_complete := false; arg_single := false;
     arg_list_agents := false; arg_resume := false; arg_timeout := 1800 |}.

End Demo.

(** ** A store that answers from a table

    Each command line is answered by the entry of the table for it, and by a
    failure when there is none; the table never changes. *)

Module Script.

Definition Table : Type := list (list string * SubprocessResult).

Fixpoint lookup (argv : list string) (t : Table) : SubprocessResult :=
  match t with
  | [] => Demo.failed
  | (a, r) :: t' =>
      if list_eq_dec string_dec a argv then r else lookup argv t'
  end.

Definition run (argv : list string) (timeout : option Z) (t : Table)
  : SubprocessResult * Table :=
  (lookup argv t, t).

#[export] Instance outside : Outside :=
  {| World := Table;
     subprocess_run := run;
     agent_file_exists := fun _ _ => false |}.

(** The store lists one ready task and then has no details for it. *)
Definition vanished : @State outside :=
  {| world :=
       [ (["bd"; "ready"; "--json"; "--limit"; "50"],
          Demo.answer [Demo.task "fb-x0.1.1" "task" "ready" (Some "fb-x0.1")]);
         (["bd"; "show"; "fb-x0.1.1"; "--json"],
          Returned {| returncode := 0; stdout := Json (JList []) |}) ];
     calls := [] |}.

(** The store lists the parent [fb-x0.1] as in progress, and answers the
    query for its children with brackets nested two thousand deep, on which
    [json.loads] raises RecursionError. *)
Definition deep_children : @State outside :=
  {| world :=
       [ (["bd"; "list"; "--status"; "in_progress"; "--json"; "--limit"; "50"],
          Demo.answer [Demo.task "fb-x0.1" "task" "in_progress" (Some "fb-x0")]);
         (child_query "fb-x0.1",
          Returned {| returncode := 0; stdout := Unloadable TooDeep |}) ];
     calls := [] |}.

(** The same store when the answer to the query for the children is no text:
    [subprocess.run] raises UnicodeDecodeError. *)
Definition garbled_children : @State outside :=
  {| world :=
       [ (["bd"; "list"; "--status"; "in_progress"; "--json"; "--limit"; "50"],
          Demo.answer [Demo.task "fb-x0.1" "task" "in_progress" (Some "fb-x0")]);
         (child_query "fb-x0.1", Raised UnicodeDecodeError) ];
     calls := [] |}.

End Script.

(** * Properties *)

(** ** Strings *)

Lemma contains_In (c : ascii) (s : string) :
  Str.contains c s = true <-> In c (list_ascii_of_string s).
Proof.
  induction s as [|a s IH]; simpl.
  - split; [discriminate | tauto].
  - rewrite orb_true_iff, IH, Ascii.eqb_eq. tauto.
Qed.

Lemma contains_false_not_In (c : ascii) (s : string) :
  ~ In c (list_ascii_of_string s) -> Str.contains c s = false.
Proof.
  intros H. destruct (Str.contains c s) eqn:E; [|reflexivity].
  apply contains_In in E. contradiction.
Qed.

Lemma contains_app (c : ascii) (pre suf : string) :
  Str.contains c (pre ++ String c suf) = true.
Proof.
  induction pre as [|a pre IH]; simpl.
  - now rewrite Ascii.eqb_refl.
  - rewrite IH. apply orb_true_r.
Qed.

Lemma split1_app (c : ascii) (pre suf : string) :
  Str.contains c pre = false ->
  Str.split1 c (pre ++ String c suf) = [pre; suf].
Proof.
  induction pre as [|a pre IH]; simpl; intros H.
  - now rewrite Ascii.eqb_refl.
  - apply orb_false_iff in H. destruct H as [Ha Hp].
    rewrite Ha, (IH Hp). reflexivity.
Qed.

Lemma contains_decompose (c : ascii) (s : string) :
  Str.contains c s = true ->
  exists pre suf, s = pre ++ String c suf /\ Str.contains c pre = false.
Proof.
  induction s as [|a s IH]; simpl; [discriminate|].
  destruct (Ascii.eqb a c) eqn:E; simpl; intros H.
  - apply Ascii.eqb_eq in E. subst a. now exists EmptyString, s.
  - destruct (IH H) as (pre & suf & -> & Hp).
    exists (String a pre), suf. simpl. now rewrite E, Hp.
Qed.

Lemma count_occurrences (c : ascii) (s : string) :
  Str.count c s = Z.of_nat (length (Str.occurrences c s)).
Proof.
  unfold Str.occurrences.
  induction s as [|a s IH]; simpl; [reflexivity|].
  rewrite IH. destruct (Ascii.eqb a c); simpl length; lia.
Qed.

(** ** The hierarchy analyzer *)

Lemma depth_of_split (task : BeadTask) (pre suf : string) :
  id task = pre ++ String "-" suf ->
  Str.contains "-" pre = false ->
  get_hierarchy_depth task = Str.count "." suf.
Proof.
  intros Hid Hpre. unfold get_hierarchy_depth.
  rewrite Hid, contains_app, split1_app by assumption. reflexivity.
Qed.

(** C2.  The depth of a task is the number of dots after the first dash of
    its id, and 0 when the id has no dash: for an id [pre-suf] with no dash in
    [pre] the depth is the number of ['.'] in [suf]; every id with a dash has
    such a decomposition; an id without a dash has depth 0; the ids [fb-ft0],
    [fb-ft0.1] and [fb-ft0.1.1] have depths 0, 1 and 2.  The depth is a
    function of the id alone, defined on every string. *)
Theorem get_hierarchy_depth_spec (task : BeadTask) :
  (forall pre suf : string,
      id task = pre ++ String "-" suf ->
      ~ In "-"%char (list_ascii_of_string pre) ->
      get_hierarchy_depth task = Z.of_nat (length (Str.occurrences "." suf)))
  /\ (In "-"%char (list_ascii_of_string (id task)) ->
      exists pre suf : string,
        id task = pre ++ String "-" suf /\ ~ In "-"%char (list_ascii_of_string pre))
  /\ (~ In "-"%char (list_ascii_of_string (id task)) -> get_hierarchy_depth task = 0)
  /\ (id task = "fb-ft0" -> get_hierarchy_depth task = 0)
  /\ (id task = "fb-ft0.1" -> get_hierarchy_depth task = 1)
  /\ (id task = "fb-ft0.1.1" -> get_hierarchy_depth task = 2)
  /\ (forall other : BeadTask,
        id other = id task -> get_hierarchy_depth other = get_hierarchy_depth task).
Proof.
  repeat split.
  - intros pre suf Hid Hpre.
    rewrite <- count_occurrences.
    apply (depth_of_split task pre suf Hid). now apply contains_false_not_In.
  - intros Hin. apply contains_In in Hin.
    destruct (contains_decompose _ _ Hin) as (pre & suf & Hid & Hpre).
    exists pre, suf. split; [assumption|].
    intros Hc. apply contains_In in Hc. congruence.
  - intros Hno. unfold get_hierarchy_depth.
    now rewrite (contains_false_not_In _ _ Hno).
  - intros Hid. unfold get_hierarchy_depth. now rewrite Hid.
  - intros Hid. unfold get_hierarchy_depth. now rewrite Hid.
  - intros Hid. unfold get_hierarchy_depth. now rewrite Hid.
  - intros other Hid. unfold get_hierarchy_depth. now rewrite Hid.
Qed.

Lemma get_hierarchy_depth_spec_witness :
  get_hierarchy_depth (Demo.task "fb-ft0.1.1" "task" "ready" None) = 2.
Proof.
  refine (proj1 (get_hierarchy_depth_spec
                   (Demo.task "fb-ft0.1.1" "task" "ready" None))
                "fb" "ft0.1.1" eq_refl _).
  simpl. intros [H|[H|[]]]; discriminate H.
Defined.

(** ** Commands and the call log *)

Section CallLog.

Context {outside : Outside}.

Lemma run_command_returned (cmd : list string) (s : State) (p : CompletedProcess) (w : World) :
  subprocess_run cmd None (world s) = (Returned p, w) ->
  run_command cmd s = (Ok p, after s cmd w).
Proof.
  intros H. unfold run_command, bind, spawn. now rewrite H.
Qed.

Lemma run_command_raised (cmd : list string) (s : State) (e : exn) (w : World) :
  subprocess_run cmd None (world s) = (Raised e, w) ->
  run_command cmd s = (Raise e, after s cmd w).
Proof.
  intros H. unfold run_command, bind, spawn. now rewrite H.
Qed.

(** Whatever the outcome, [run_command cmd] adds [cmd] to the log and
    nothing else. *)
Lemma run_command_calls (cmd : list string) (s : State) :
  calls (snd (run_command cmd s)) = (calls s ++ [cmd])%list.
Proof.
  unfold run_command, bind, spawn.
  destruct (subprocess_run cmd None (world s)) as [[p|e] w]; reflexivity.
Qed.

Lemma run_command_inv (cmd : list string) (s s' : State) (r : Result CompletedProcess) :
  run_command cmd s = (r, s') ->
  exists w, s' = after s cmd w /\
    match r with
    | Ok p => subprocess_run cmd None (world s) = (Returned p, w)
    | Raise e => subprocess_run cmd None (world s) = (Raised e, w)
    end.
Proof.
  unfold run_command, bind, spawn.
  destruct (subprocess_run cmd None (world s)) as [[p|e] w]; simpl;
    intros H; inversion H; subst; exists w; split; reflexivity.
Qed.

End CallLog.

(** ** The dependency gate *)

Section Gate.

Context {outside : Outside}.

Lemma children_loop_forallb (children : list BeadTask) :
  children_loop children = forallb terminal children.
Proof.
  induction children as [|c cs IH]; simpl; [reflexivity|].
  destruct (terminal c); simpl; [assumption | reflexivity].
Qed.

Lemma terminal_iff (task : BeadTask) :
  terminal task = true <-> status task = "done" \/ status task = "closed".
Proof.
  unfold terminal. now rewrite orb_true_iff, !String.eqb_eq.
Qed.

Lemma all_children_complete_fetch (parent : string) (s s' : State) (children : list BeadTask) :
  get_child_tasks parent s = (Ok children, s') ->
  all_children_complete parent s = (Ok (forallb terminal children), s').
Proof.
  intros H. unfold all_children_complete, bind. rewrite H.
  destruct children as [|c cs]; [reflexivity|].
  unfold ret. now rewrite children_loop_forallb.
Qed.

Lemma all_children_complete_raise (parent : string) (s s' : State) (e : exn) :
  get_child_tasks parent s = (Raise e, s') ->
  all_children_complete parent s = (Raise e, s').
Proof.
  intros H. unfold all_children_complete, bind. now rewrite H.
Qed.

(** C5.  When the child query returns the list [children], the gate answers
    in the same state; the answer is true for an empty list, true when every
    child has status [done] or [closed], and false as soon as one child has
    another status, such as [ready], [in_progress] or [blocked]. *)
Theorem all_children_complete_spec
  (parent : string) (s s' : State) (children : list BeadTask) :
  get_child_tasks parent s = (Ok children, s') ->
  exists b : bool,
    all_children_complete parent s = (Ok b, s')
    /\ (children = [] -> b = true)
    /\ (Forall (fun c => status c = "done" \/ status c = "closed") children -> b = true)
    /\ (Exists (fun c => status c <> "done" /\ status c <> "closed") children -> b = false)
    /\ (Exists (fun c => status c = "ready" \/ status c = "in_progress"
                         \/ status c = "blocked") children -> b = false).
Proof.
  intros H. exists (forallb terminal children).
  split; [now apply all_children_complete_fetch|].
  assert (Hopen : Exists (fun c => status c <> "done" /\ status c <> "closed") children ->
                  forallb terminal children = false).
  { intros Hex. apply not_true_is_false. intros Hall.
    rewrite forallb_forall in Hall. apply Exists_exists in Hex.
    destruct Hex as (c & Hin & Hd & Hc).
    apply Hall, terminal_iff in Hin. tauto. }
  repeat split.
  - intros ->. reflexivity.
  - intros Hall. apply forallb_forall. intros c Hin.
    apply terminal_iff. rewrite Forall_forall in Hall. now apply Hall.
  - exact Hopen.
  - intros Hex. apply Hopen. apply Exists_exists in Hex.
    destruct Hex as (c & Hin & Hst). apply Exists_exists. exists c.
    split; [assumption|].
    destruct Hst as [E|[E|E]]; rewrite E; split; discriminate.
Qed.

Lemma fetch_tasks_failed (cmd : list string) (s : State) (p : CompletedProcess) (w : World) :
  subprocess_run cmd None (world s) = (Returned p, w) ->
  returncode p <> 0 \/ stdout p = Blank \/ stdout p = NotJson ->
  fetch_tasks cmd s = (Ok [], after s cmd w).
Proof.
  intros Hrun Hfail. unfold fetch_tasks, bind.
  rewrite (run_command_returned _ _ _ _ Hrun).
  destruct (returncode p =? 0) eqn:Hrc; simpl; [|reflexivity].
  apply Z.eqb_eq in Hrc.
  destruct Hfail as [Hne|[Hb|Hj]]; [contradiction| |]; now (rewrite Hb || rewrite Hj).
Qed.

(** C6, as amended.  When the store command that lists the children of
    [parent] ends with a non-zero exit code, with blank output, or with
    output that [json.loads] rejects with JSONDecodeError, [get_child_tasks]
    returns the empty list and [all_children_complete] returns true: no
    exception is raised, and the only effect is the one query in the call
    log. *)
Theorem failed_child_query_is_complete
  (parent : string) (s : State) (p : CompletedProcess) (w : World) :
  subprocess_run (child_query parent) None (world s) = (Returned p, w) ->
  returncode p <> 0 \/ stdout p = Blank \/ stdout p = NotJson ->
  get_child_tasks parent s = (Ok [], after s (child_query parent) w)
  /\ all_children_complete parent s = (Ok true, after s (child_query parent) w).
Proof.
  intros Hrun Hfail.
  assert (H : get_child_tasks parent s = (Ok [], after s (child_query parent) w))
    by (now apply fetch_tasks_failed with (p := p)).
  split; [assumption|].
  now rewrite (all_children_complete_fetch _ _ _ _ H).
Qed.

End Gate.

(** ** The sort key *)

Lemma ascii_compare_trans (a b c : ascii) :
  Ascii.compare a b = Lt -> Ascii.compare b c = Lt -> Ascii.compare a c = Lt.
Proof.
  unfold Ascii.compare. rewrite !N.compare_lt_iff. lia.
Qed.

Lemma string_compare_trans (a b c : string) :
  String.compare a b = Lt -> String.compare b c = Lt -> String.compare a c = Lt.
Proof.
  revert b c. induction a as [|x a IH]; intros [|y b] [|z c]; simpl;
    try discriminate; try reflexivity.
  destruct (Ascii.compare x y) eqn:Exy; try discriminate;
    destruct (Ascii.compare y z) eqn:Eyz; try discriminate; intros Hab Hbc.
  - apply Ascii.compare_eq_iff in Exy, Eyz. subst.
    assert (Hzz : Ascii.compare z z = Eq)
      by (unfold Ascii.compare; apply N.compare_refl).
    rewrite Hzz. now apply IH with (b := b).
  - apply Ascii.compare_eq_iff in Exy. subst. now rewrite Eyz.
  - apply Ascii.compare_eq_iff in Eyz. subst. now rewrite Exy.
  - now rewrite (ascii_compare_trans _ _ _ Exy Eyz).
Qed.

Lemma string_compare_refl (a : string) : String.compare a a = Eq.
Proof.
  induction a as [|x a IH]; simpl; [reflexivity|].
  assert (Hxx : Ascii.compare x x = Eq)
    by (unfold Ascii.compare; apply N.compare_refl).
  now rewrite Hxx.
Qed.

Lemma str_lt_false_le (a b : string) : Str.lt b a = false <-> Str.le a b = true.
Proof.
  unfold Str.lt, Str.le, String.ltb, String.leb.
  rewrite (String.compare_antisym a b).
  destruct (String.compare b a); simpl; split; congruence.
Qed.

Lemma str_le_trans (a b c : string) :
  Str.le a b = true -> Str.le b c = true -> Str.le a c = true.
Proof.
  unfold Str.le, String.leb.
  destruct (String.compare a b) eqn:Eab; try discriminate;
    destruct (String.compare b c) eqn:Ebc; try discriminate; intros _ _.
  - apply String.compare_eq_iff in Eab, Ebc. subst. now rewrite string_compare_refl.
  - apply String.compare_eq_iff in Eab. subst. now rewrite Ebc.
  - apply String.compare_eq_iff in Ebc. subst. now rewrite Eab.
  - now rewrite (string_compare_trans _ _ _ Eab Ebc).
Qed.

(** The tuple comparison of Python against the order in words. *)
Lemma key_lt_false_iff (a b : BeadTask) :
  key_lt (sort_key b) (sort_key a) = false <-> deeper_first a b.
Proof.
  unfold key_lt, sort_key, deeper_first. simpl.
  rewrite orb_false_iff, andb_false_iff, Z.ltb_ge, Z.eqb_neq, str_lt_false_le.
  split.
  - intros [H1 [H2|H2]]; [left; lia|].
    destruct (Z.eq_dec (get_hierarchy_depth a) (get_hierarchy_depth b)) as [E|E];
      [right; now split | left; lia].
  - intros [H|[H1 H2]]; (split; [lia|]); [left; lia | now right].
Qed.

Lemma key_lt_true_deeper (a b : BeadTask) :
  key_lt (sort_key a) (sort_key b) = true -> deeper_first a b.
Proof.
  unfold key_lt, sort_key, deeper_first. simpl.
  rewrite orb_true_iff, andb_true_iff, Z.ltb_lt, Z.eqb_eq.
  intros [H|[H1 H2]]; [lia|]. right. split; [lia|].
  unfold Str.lt, Str.le, String.ltb, String.leb in *.
  destruct (String.compare (id a) (id b)); congruence.
Qed.

Lemma deeper_first_trans (a b c : BeadTask) :
  deeper_first a b -> deeper_first b c -> deeper_first a c.
Proof.
  unfold deeper_first. intros [H1|[H1 L1]] [H2|[H2 L2]]; try lia.
  right. split; [lia|]. now apply str_le_trans with (b := id b).
Qed.

(** ** The sort *)

Lemma insert_sorted_perm (x : BeadTask) (l : list BeadTask) :
  Permutation (insert_sorted x l) (x :: l).
Proof.
  induction l as [|y l IH]; simpl; [reflexivity|].
  destruct (key_lt (sort_key y) (sort_key x)); [|reflexivity].
  rewrite IH. apply perm_swap.
Qed.

Lemma sort_tasks_perm (l : list BeadTask) : Permutation (sort_tasks l) l.
Proof.
  induction l as [|x l IH]; simpl; [reflexivity|].
  rewrite insert_sorted_perm. now constructor.
Qed.

Lemma insert_sorted_sorted (x : BeadTask) (l : list BeadTask) :
  StronglySorted deeper_first l -> StronglySorted deeper_first (insert_sorted x l).
Proof.
  induction l as [|y l IH]; simpl; intros Hs.
  - constructor; constructor.
  - inversion Hs as [|? ? Hl Hy]; subst.
    destruct (key_lt (sort_key y) (sort_key x)) eqn:E.
    + constructor; [now apply IH|].
      rewrite Forall_forall. intros z Hz.
      apply (Permutation_in _ (insert_sorted_perm x l)) in Hz.
      destruct Hz as [<-|Hz]; [now apply key_lt_true_deeper|].
      rewrite Forall_forall in Hy. now apply Hy.
    + apply key_lt_false_iff in E.
      constructor; [assumption|]. constructor; [assumption|].
      rewrite Forall_forall in *. intros z Hz.
      apply deeper_first_trans with (b := y); auto.
Qed.

Lemma sort_tasks_sorted (l : list BeadTask) : StronglySorted deeper_first (sort_tasks l).
Proof.
  induction l as [|x l IH]; simpl; [constructor|].
  now apply insert_sorted_sorted.
Qed.

Lemma deeper_first_refl (a : BeadTask) : deeper_first a a.
Proof.
  right. split; [reflexivity|].
  unfold Str.le, String.leb. now rewrite string_compare_refl.
Qed.

(** The first task of the sorted list comes before every task of the
    input. *)
Lemma sort_tasks_head (l : list BeadTask) (first : BeadTask) (rest : list BeadTask) :
  sort_tasks l = first :: rest ->
  In first l /\ forall u, In u l -> deeper_first first u.
Proof.
  intros E. pose proof (sort_tasks_perm l) as P.
  pose proof (sort_tasks_sorted l) as S. rewrite E in P, S.
  split.
  - apply (Permutation_in _ P). now left.
  - intros u Hu. apply (Permutation_in _ (Permutation_sym P)) in Hu.
    destruct Hu as [<-|Hu]; [apply deeper_first_refl|].
    inversion S as [|? ? _ Hall]; subst.
    rewrite Forall_forall in Hall. now apply Hall.
Qed.

Lemma sort_tasks_nonempty (x : BeadTask) (l : list BeadTask) :
  exists first rest, sort_tasks (x :: l) = first :: rest.
Proof.
  pose proof (sort_tasks_perm (x :: l)) as P.
  destruct (sort_tasks (x :: l)) as [|first rest]; [|now eauto].
  apply Permutation_nil in P. discriminate.
Qed.

(** ** The scheduler *)

Section Scheduler.

Context {outside : Outside}.

Lemma ready_candidate_spec (lf : option string) (s s2 : State) (tasks : list BeadTask) :
  get_ready_tasks lf 50 s = (Ok tasks, s2) ->
  exists r : option BeadTask,
    ready_candidate lf s = (Ok (r, false), s2)
    /\ (tasks = [] -> r = None)
    /\ (tasks <> [] ->
        exists t, r = Some t /\ In t tasks /\ forall u, In u tasks -> deeper_first t u).
Proof.
  intros H. unfold ready_candidate, bind. rewrite H.
  destruct tasks as [|x l].
  - exists None. split; [reflexivity|]. split; [reflexivity | congruence].
  - destruct (sort_tasks_nonempty x l) as (first & rest & E). rewrite E.
    exists (Some first). split; [reflexivity|]. split; [discriminate|].
    intros _. exists first. split; [reflexivity|].
    now apply sort_tasks_head with (rest := rest).
Qed.

(** C3.  When resume mode is off, or when the in-progress block selected
    nothing, the scheduler answers from the ready tasks it fetches: no task
    when the list is empty; otherwise a task of the list of maximal depth
    whose id is the smallest among the tasks of that depth, with the resumed
    flag false. *)
Theorem ready_path_selects_deepest
  (lf : option string) (resume : bool) (s s1 s2 : State) (tasks : list BeadTask) :
  (resume = false /\ s1 = s)
  \/ (resume = true /\ resume_candidate lf s = (Ok None, s1)) ->
  get_ready_tasks lf 50 s1 = (Ok tasks, s2) ->
  exists r : option BeadTask,
    get_next_prioritized_task lf resume s = (Ok (r, false), s2)
    /\ (tasks = [] -> r = None)
    /\ (tasks <> [] ->
        exists t, r = Some t /\ In t tasks
          /\ forall u, In u tasks ->
               get_hierarchy_depth u <= get_hierarchy_depth t
               /\ (get_hierarchy_depth u = get_hierarchy_depth t ->
                   Str.le (id t) (id u) = true)).
Proof.
  intros Hres Hready.
  destruct (ready_candidate_spec lf s1 s2 tasks Hready) as (r & Hr & Hnil & Hcons).
  exists r. split; [|split; [exact Hnil|]].
  - unfold get_next_prioritized_task.
    destruct Hres as [[-> ->]|[-> Hnone]]; [exact Hr|].
    unfold bind. now rewrite Hnone.
  - intros Hne. destruct (Hcons Hne) as (t & -> & Hin & Hmin).
    exists t. split; [reflexivity|]. split; [assumption|].
    intros u Hu. unfold deeper_first in Hmin.
    destruct (Hmin u Hu) as [Hlt|[Heq Hle]]; split; try lia; intros; assumption.
Qed.

(** The three ways the walk over the in-progress tasks can end. *)
Lemma resume_walk_cases (l : list BeadTask) (s0 : State) :
  (exists pre t post s1 s2,
      l = (pre ++ t :: post)%list /\ skipped pre s0 s1
      /\ ((is_leaf_task t = true /\ s2 = s1)
          \/ (is_leaf_task t = false
              /\ all_children_complete (id t) s1 = (Ok true, s2)))
      /\ resume_walk l s0 = (Ok (Some t), s2))
  \/ (exists s1, skipped l s0 s1 /\ resume_walk l s0 = (Ok None, s1))
  \/ (exists pre t post s1 s2 e,
        l = (pre ++ t :: post)%list /\ skipped pre s0 s1
        /\ is_leaf_task t = false
        /\ all_children_complete (id t) s1 = (Raise e, s2)
        /\ resume_walk l s0 = (Raise e, s2)).
Proof.
  revert s0. induction l as [|t l IH]; intros s0.
  - right; left. exists s0. split; [constructor | reflexivity].
  - simpl. destruct (is_leaf_task t) eqn:Hleaf.
    + left. exists [], t, l, s0, s0.
      split; [reflexivity|]. split; [constructor|]. split; [now left | reflexivity].
    + unfold bind.
      destruct (all_children_complete (id t) s0) as [[[|]|e] s1] eqn:Hgate.
      * left. exists [], t, l, s0, s1.
        split; [reflexivity|]. split; [constructor|]. split; [now right | reflexivity].
      * destruct (IH s1) as [H|[H|H]].
        -- destruct H as (pre & t' & post & sa & sb & -> & Hsk & Hsel & Hw).
           left. exists (t :: pre), t', post, sa, sb.
           split; [reflexivity|]. split; [econstructor; eassumption|].
           split; assumption.
        -- destruct H as (sa & Hsk & Hw).
           right; left. exists sa. split; [econstructor; eassumption | assumption].
        -- destruct H as (pre & t' & post & sa & sb & e & -> & Hsk & Hl & Hg & Hw).
           right; right. exists (t :: pre), t', post, sa, sb, e.
           split; [reflexivity|]. split; [econstructor; eassumption|].
           repeat split; assumption.
      * right; right. exists [], t, l, s0, s1, e.
        split; [reflexivity|]. split; [constructor|]. repeat split; assumption.
Qed.

(** C4.  In resume mode the scheduler walks the in-progress tasks it fetched
    in the order of the sort, deepest first and by id within a depth.  The
    walk ends at the first task that is a leaf, or that is no leaf and passes
    the gate, and that task is returned with the resumed flag true; every
    task before it is no leaf and failed the gate.  When every task is
    skipped, the scheduler answers as the ready path does from the state the
    walk leaves.  The only other end is an exception raised by a gate
    query. *)
Theorem resume_walk_spec
  (lf : option string) (s s0 : State) (fetched : list BeadTask) :
  get_in_progress_tasks lf 50 s = (Ok fetched, s0) ->
  let walk := sort_tasks fetched in
  Permutation walk fetched
  /\ StronglySorted deeper_first walk
  /\ ((exists pre t post s1 s2,
          walk = (pre ++ t :: post)%list /\ skipped pre s0 s1
          /\ ((is_leaf_task t = true /\ s2 = s1)
              \/ (is_leaf_task t = false
                  /\ all_children_complete (id t) s1 = (Ok true, s2)))
          /\ get_next_prioritized_task lf true s = (Ok (Some t, true), s2))
      \/ (exists s1,
            skipped walk s0 s1
            /\ get_next_prioritized_task lf true s = ready_candidate lf s1)
      \/ (exists pre t post s1 s2 e,
            walk = (pre ++ t :: post)%list /\ skipped pre s0 s1
            /\ is_leaf_task t = false
            /\ all_children_complete (id t) s1 = (Raise e, s2)
            /\ get_next_prioritized_task lf true s = (Raise e, s2))).
Proof.
  intros Hfetch walk.
  split; [apply sort_tasks_perm|]. split; [apply sort_tasks_sorted|].
  assert (Hcand : resume_candidate lf s = resume_walk walk s0).
  { unfold resume_candidate, bind. rewrite Hfetch.
    destruct fetched; reflexivity. }
  unfold get_next_prioritized_task, bind. rewrite Hcand.
  destruct (resume_walk_cases walk s0) as [H|[H|H]].
  - destruct H as (pre & t & post & s1 & s2 & E & Hsk & Hsel & Hw).
    left. exists pre, t, post, s1, s2. rewrite Hw.
    split; [assumption|]. split; [assumption|]. split; [assumption | reflexivity].
  - destruct H as (s1 & Hsk & Hw).
    right; left. exists s1. rewrite Hw. split; [assumption | reflexivity].
  - destruct H as (pre & t & post & s1 & s2 & e & E & Hsk & Hl & Hg & Hw).
    right; right. exists pre, t, post, s1, s2, e. rewrite Hw.
    split; [assumption|]. split; [assumption|]. split; [assumption|].
    split; [assumption | reflexivity].
Qed.

End Scheduler.

(** ** The lifecycle of a selected task *)

Section Lifecycle.

Context {outside : Outside}.

(** A leaf whose claim step has been taken: the rest of the pass is the
    agent run followed by the status update. *)
Lemma leaf_after_claim
  (cfg : Config) (iteration : Z) (task : BeadTask) (is_resumed : bool) (s s1 : State) :
  is_leaf_task task = true ->
  dry_run cfg = false ->
  claimed task is_resumed s s1 ->
  process_task cfg iteration task is_resumed s
  = ('(success, session_id, timed_out) <-
       run_agent task false (model_override cfg) (timeout_seconds cfg) ;;
     _ <- update_status cfg task success session_id timed_out ;;
     ret (Next (iteration + 1))) s1.
Proof.
  intros Hleaf Hdry Hclaim. unfold process_task, run_leaf.
  rewrite Hleaf, Hdry.
  destruct Hclaim as [[-> ->]|[-> Hc]]; cbn [negb].
  - reflexivity.
  - unfold bind at 1. rewrite Hc. reflexivity.
Qed.

(** A task that is no leaf and whose claim step has been taken: the rest of
    the pass is the close, when auto-complete is on. *)
Lemma parent_after_claim
  (cfg : Config) (iteration : Z) (task : BeadTask) (is_resumed : bool) (s s1 : State) :
  is_leaf_task task = false ->
  dry_run cfg = false ->
  auto_complete cfg = true ->
  claimed task is_resumed s s1 ->
  process_task cfg iteration task is_resumed s
  = (closed <- complete_task (id task) None ;;
     _ <- (if negb closed then
             _ <- fail_task (id task) "Failed to mark task as done" ;; ret tt
           else ret tt) ;;
     ret (Next (iteration + 1))) s1.
Proof.
  intros Hleaf Hdry Hauto Hclaim. unfold process_task, close_parent.
  rewrite Hleaf, Hdry, Hauto.
  destruct Hclaim as [[-> ->]|[-> Hc]]; cbn [negb].
  - unfold bind, ret. cbn [negb].
    destruct (complete_task (id task) None s) as [[[|]|e] s2]; reflexivity.
  - unfold bind at 1. rewrite Hc. cbn [negb]. unfold bind, ret.
    destruct (complete_task (id task) None s1) as [[[|]|e] s2]; reflexivity.
Qed.

(** A pass that is within the budget and selects a task hands the task,
    refreshed by [get_task_details] when that answers, to [process_task]. *)
Lemma pass_selected
  (cfg : Config) (iteration : Z) (s sa sb : State)
  (selected : BeadTask) (is_resumed : bool) (full : option BeadTask) :
  match max_iterations cfg with Some n => iteration < n | None => True end ->
  get_next_prioritized_task (label_filter cfg) (resume cfg) s
  = (Ok (Some selected, is_resumed), sa) ->
  get_task_details (id selected) sa = (Ok full, sb) ->
  orchestrate_pass cfg iteration s
  = process_task cfg iteration (get_or full selected) is_resumed sb.
Proof.
  intros Hmax Hsel Hfull. unfold orchestrate_pass.
  replace (match max_iterations cfg with Some n => n <=? iteration | None => false end)
    with false.
  - unfold bind at 1. rewrite Hsel. unfold bind at 1. now rewrite Hfull.
  - destruct (max_iterations cfg) as [n|]; [|reflexivity].
    symmetry. apply Z.leb_gt. exact Hmax.
Qed.

(** A pass that ends with [Next] is followed by the next pass. *)
Lemma loop_goes_on (fuel : nat) (cfg : Config) (iteration next : Z) (s s' : State) :
  orchestrate_pass cfg iteration s = (Ok (Next next), s') ->
  orchestrate_loop (S fuel) cfg iteration s = orchestrate_loop fuel cfg next s'.
Proof.
  intros H. simpl. unfold bind. now rewrite H.
Qed.

(** [run_agent] reports a time-out only together with a failure and no
    session. *)
Lemma run_agent_timed_out
  (task : BeadTask) (dry : bool) (mo : option string) (t : Z) (s s' : State)
  (success : bool) (session_id : option string) :
  run_agent task dry mo t s = (Ok (success, session_id, true), s') ->
  success = false /\ session_id = None.
Proof.
  unfold run_agent, bind, agent_exists, spawn, ret.
  destruct dry; [intros H; inversion H|].
  destruct (subprocess_run _ _ _) as [[p|e] w].
  - destruct (returncode p =? 0); simpl; [|intros H; inversion H].
    destruct (stdout p) as [| |[items|o|]|f]; intros H; inversion H.
  - destruct e; cbn; intros H; inversion H; now split.
Qed.



Lemma fail_task_calls (task_id reason : string) (s : State) :
  calls (snd (fail_task task_id reason s))
  = (calls s ++ [fail_command task_id reason])%list.
Proof.
  unfold fail_task, bind.
  pose proof (run_command_calls (fail_command task_id reason) s) as H.
  destruct (run_command (fail_command task_id reason) s) as [[p|e] s']; exact H.
Qed.

Lemma then_next_calls {A : Type} (m : M A) (iteration : Z) (s : State) :
  calls (snd ((_ <- m ;; ret (Next iteration)) s)) = calls (snd (m s)).
Proof.
  unfold bind, ret. destruct (m s) as [[a|e] s']; reflexivity.
Qed.



(** C9.  No dry run, auto-complete on, the claim step taken.  For a task
    that is no leaf, when [complete_task] returns false, and for a leaf, when
    the agent run succeeds and [complete_task] then returns false, the rest of
    the pass is [fail_task] with a reason that names the failed close: the
    one command that sets the status [blocked].  The close is not issued a
    second time in that pass. *)
Theorem failed_close_blocks_task
  (cfg : Config) (iteration : Z) (task : BeadTask) (is_resumed : bool) (s s1 : State) :
  dry_run cfg = false ->
  auto_complete cfg = true ->
  claimed task is_resumed s s1 ->
  (is_leaf_task task = false ->
   forall s2,
     complete_task (id task) None s1 = (Ok false, s2) ->
     let reason := "Failed to mark task as done" in
     process_task cfg iteration task is_resumed s
     = (_ <- fail_task (id task) reason ;; ret (Next (iteration + 1))) s2
     /\ calls (snd (process_task cfg iteration task is_resumed s))
        = (calls s2 ++ [["bd"; "update"; id task; "--status"; "blocked";
                         "--notes"; ("Agent failed: " ++ reason)%string]])%list)
  /\ (is_leaf_task task = true ->
      forall session_id timed_out s2 s3,
        run_agent task false (model_override cfg) (timeout_seconds cfg) s1
        = (Ok (true, session_id, timed_out), s2) ->
        complete_task (id task) session_id s2 = (Ok false, s3) ->
        let reason := "Failed to mark task as done after successful agent run" in
        process_task cfg iteration task is_resumed s
        = (_ <- fail_task (id task) reason ;; ret (Next (iteration + 1))) s3
        /\ calls (snd (process_task cfg iteration task is_resumed s))
           = (calls s3 ++ [["bd"; "update"; id task; "--status"; "blocked";
                            "--notes"; ("Agent failed: " ++ reason)%string]])%list).
Proof.
  intros Hdry Hauto Hclaim. split.
  - intros Hleaf s2 Hclose reason.
    assert (Hpass : process_task cfg iteration task is_resumed s
                    = (_ <- fail_task (id task) reason ;; ret (Next (iteration + 1))) s2).
    { rewrite (parent_after_claim cfg iteration task is_resumed s s1
                 Hleaf Hdry Hauto Hclaim).
      unfold bind at 1. rewrite Hclose. cbn [negb]. unfold bind, ret, reason.
      destruct (fail_task (id task) _ s2) as [[b|e] s3]; reflexivity. }
    split; [exact Hpass|].
    rewrite Hpass, then_next_calls. apply fail_task_calls.
  - intros Hleaf session_id timed_out s2 s3 Hrun Hclose reason.
    assert (Hpass : process_task cfg iteration task is_resumed s
                    = (_ <- fail_task (id task) reason ;; ret (Next (iteration + 1))) s3).
    { rewrite (leaf_after_claim cfg iteration task is_resumed s s1 Hleaf Hdry Hclaim).
      unfold bind at 1. rewrite Hrun. unfold update_status. rewrite Hdry, Hauto.
      cbn [negb andb]. unfold bind at 1. unfold bind at 1. rewrite Hclose.
      cbn [negb]. unfold bind, ret, reason.
      destruct (fail_task (id task) _ s3) as [[b|e] s4]; reflexivity. }
    split; [exact Hpass|].
    rewrite Hpass, then_next_calls. apply fail_task_calls.
Qed.

(** ** Dry runs *)

(** Closes [only_reads m] for an [m] that leaves the state as it is. *)
Ltac no_calls :=
  let s := fresh "s" in
  intros s; exists []; split; [symmetry; apply app_nil_r | constructor].

Create HintDb reads.

Lemma only_reads_ret {A : Type} (a : A) : only_reads (ret a).
Proof.
  no_calls.
Qed.

Lemma only_reads_raise {A : Type} (e : exn) : only_reads (@raise _ A e).
Proof.
  no_calls.
Qed.

Lemma only_reads_lift {A : Type} (r : Result A) : only_reads (lift r).
Proof.
  no_calls.
Qed.

#[local] Hint Resolve only_reads_ret only_reads_raise only_reads_lift : reads.

Lemma only_reads_bind {A B : Type} (m : M A) (k : A -> M B) :
  only_reads m -> (forall a, only_reads (k a)) -> only_reads (bind m k).
Proof.
  intros Hm Hk s. unfold bind.
  destruct (Hm s) as (n1 & E1 & F1).
  destruct (m s) as [[a|e] s1]; simpl in E1.
  - destruct (Hk a s1) as (n2 & E2 & F2).
    exists (n1 ++ n2)%list. split.
    + rewrite E2, E1. symmetry. apply app_assoc.
    + apply Forall_app. now split.
  - exists n1. now split.
Qed.

Lemma only_reads_run_command (cmd : list string) :
  is_read_query cmd = true -> only_reads (run_command cmd).
Proof.
  intros Hq s. exists [cmd]. split; [apply run_command_calls|].
  constructor; [assumption | constructor].
Qed.

Lemma only_reads_agent_exists (name : string) : only_reads (agent_exists name).
Proof.
  no_calls.
Qed.

Lemma is_read_query_with_label (cmd : list string) (lf : option string) :
  (2 <= length cmd)%nat -> is_read_query (with_label cmd lf) = is_read_query cmd.
Proof.
  unfold with_label. destruct lf as [l|]; [|reflexivity].
  destruct (Str.truthy l); [|reflexivity].
  destruct cmd as [|a [|b rest]]; simpl; intros H; try lia. reflexivity.
Qed.

Lemma only_reads_fetch_tasks (cmd : list string) :
  is_read_query cmd = true -> only_reads (fetch_tasks cmd).
Proof.
  intros Hq. unfold fetch_tasks.
  apply only_reads_bind; [now apply only_reads_run_command|].
  intros p. destruct (negb (returncode p =? 0)); [auto with reads|].
  destruct (stdout p); auto with reads.
Qed.

Lemma only_reads_all_children_complete (parent : string) :
  only_reads (all_children_complete parent).
Proof.
  unfold all_children_complete. apply only_reads_bind.
  - now apply only_reads_fetch_tasks.
  - intros [|c cs]; apply only_reads_ret.
Qed.

Lemma only_reads_resume_walk (l : list BeadTask) : only_reads (resume_walk l).
Proof.
  induction l as [|t l IH]; simpl; [apply only_reads_ret|].
  destruct (is_leaf_task t); [apply only_reads_ret|].
  apply only_reads_bind; [apply only_reads_all_children_complete|].
  intros [|]; [apply only_reads_ret | exact IH].
Qed.

Lemma only_reads_ready_candidate (lf : option string) : only_reads (ready_candidate lf).
Proof.
  unfold ready_candidate, get_ready_tasks. apply only_reads_bind.
  - apply only_reads_fetch_tasks. rewrite is_read_query_with_label; [reflexivity|].
    simpl. lia.
  - intros [|x l]; [apply only_reads_ret|].
    destruct (sort_tasks (x :: l)); [apply only_reads_raise | apply only_reads_ret].
Qed.

Lemma only_reads_get_next (lf : option string) (resume : bool) :
  only_reads (get_next_prioritized_task lf resume).
Proof.
  unfold get_next_prioritized_task.
  destruct resume; [|apply only_reads_ready_candidate].
  apply only_reads_bind.
  - unfold resume_candidate, get_in_progress_tasks. apply only_reads_bind.
    + apply only_reads_fetch_tasks. rewrite is_read_query_with_label; [reflexivity|].
      simpl. lia.
    + intros [|x l]; [apply only_reads_ret | apply only_reads_resume_walk].
  - intros [t|]; [apply only_reads_ret | apply only_reads_ready_candidate].
Qed.

Lemma only_reads_get_task_details (task_id : string) :
  only_reads (get_task_details task_id).
Proof.
  unfold get_task_details. apply only_reads_bind.
  - now apply only_reads_run_command.
  - intros p. destruct (negb (returncode p =? 0)); [apply only_reads_ret|].
    destruct (stdout p) as [| |data|f]; auto with reads.
    apply only_reads_bind; [|intros o; apply only_reads_ret].
    destruct data as [[|[o|] items]|o|]; auto with reads.
Qed.

Lemma run_agent_dry (task : BeadTask) (mo : option string) (t : Z) (s : State) :
  run_agent task true mo t s = (Ok (true, None, false), s).
Proof. reflexivity. Qed.

Lemma only_reads_process_task
  (cfg : Config) (iteration : Z) (task : BeadTask) (is_resumed : bool) :
  dry_run cfg = true -> only_reads (process_task cfg iteration task is_resumed).
Proof.
  intros Hdry. unfold process_task, close_parent, run_leaf, update_status.
  rewrite Hdry. cbn [negb].
  destruct (negb (is_leaf_task task)); [apply only_reads_ret|].
  apply only_reads_bind; [apply only_reads_ret|].
  intros [|]; cbn [negb]; [|apply only_reads_ret].
  apply only_reads_bind.
  - intros s. exists []. rewrite run_agent_dry.
    split; [symmetry; apply app_nil_r | constructor].
  - intros [[ok sid] to]. apply only_reads_bind; [apply only_reads_ret|].
    intros _. apply only_reads_ret.
Qed.

Lemma only_reads_pass (cfg : Config) (iteration : Z) :
  dry_run cfg = true -> only_reads (orchestrate_pass cfg iteration).
Proof.
  intros Hdry. unfold orchestrate_pass.
  destruct (match max_iterations cfg with Some n => n <=? iteration | None => false end);
    [apply only_reads_ret|].
  apply only_reads_bind; [apply only_reads_get_next|].
  intros [[t|] r]; [|apply only_reads_ret].
  apply only_reads_bind; [apply only_reads_get_task_details|].
  intros full. now apply only_reads_process_task.
Qed.

Lemma only_reads_loop (fuel : nat) (cfg : Config) (iteration : Z) :
  dry_run cfg = true -> only_reads (orchestrate_loop fuel cfg iteration).
Proof.
  intros Hdry. revert iteration.
  induction fuel as [|fuel IH]; intros iteration; simpl; [apply only_reads_ret|].
  apply only_reads_bind; [now apply only_reads_pass|].
  intros [|i]; [apply only_reads_ret | apply IH].
Qed.

(** C10.  In a dry run, however many passes the loop makes, every command
    the orchestrator spawns is a read query of the store ([bd ready],
    [bd list], [bd show]): the log holds no claim, no close, no block, no
    time-out note and no agent command line; and [run_agent] returns success
    without a session and without spawning anything. *)
Theorem dry_run_only_reads (fuel : nat) (cfg : Config) (s : State) :
  dry_run cfg = true ->
  (exists new : list (list string),
      calls (snd (orchestrate fuel cfg s)) = (calls s ++ new)%list
      /\ Forall (fun argv => is_read_query argv = true) new
      /\ (forall (i reason : string) (sid : option string) (t : Z),
            ~ In (claim_command i) new
            /\ ~ In (complete_command i sid) new
            /\ ~ In (fail_command i reason) new
            /\ ~ In (timeout_note_command i t) new)
      /\ (forall (task : BeadTask) (file : bool) (mo : option string),
            ~ In (claude_command task file mo) new))
  /\ (forall (task : BeadTask) (s' : State),
        run_agent task (dry_run cfg) (model_override cfg) (timeout_seconds cfg) s'
        = (Ok (true, None, false), s')).
Proof.
  intros Hdry. split.
  - destruct (only_reads_loop fuel cfg 0 Hdry s) as (new & E & F).
    exists new. split; [exact E|]. split; [exact F|].
    rewrite Forall_forall in F.
    split.
    + intros i reason sid t.
      repeat split; intros Hin; apply F in Hin; discriminate Hin.
    + intros task file mo Hin. apply F in Hin. discriminate Hin.
  - intros task s'. rewrite Hdry. apply run_agent_dry.
Qed.

End Lifecycle.

(** * The orchestrator on the small store *)

(** C1.  A run on which the claim fails.  The store holds the ready parent
    [fb-x0.1] and its only child, the ready leaf [fb-x0.1.1]; resume mode is
    off and the agent runs out of time.  The first pass claims the leaf and
    leaves it in progress.  On the second pass the ready list holds the parent
    alone: the scheduler returns it without calling the gate, the gate is
    false for it before and after that selection, the task is no leaf, and
    the pass claims it and closes it while the child is still in progress. *)
Theorem ready_parent_closed_over_open_child :
  let cfg := Demo.config false false (Some 2) in
  let s := Demo.start Demo.parent_and_leaf (Raised TimeoutExpired) Demo.nothing_refused in
  let parent := Demo.task "fb-x0.1" "task" "ready" (Some "fb-x0") in
  let s1 := snd (orchestrate_pass cfg 0 s) in
  let selection := get_next_prioritized_task None false s1 in
  let second := orchestrate_pass cfg 1 s1 in
  let statuses (st : @State Demo.outside) := map (fun t => (id t, status t)) (Demo.tasks (world st)) in
  fst (orchestrate_pass cfg 0 s) = Ok (Next 1)
  /\ statuses s1 = [ ("fb-x0.1", "ready"); ("fb-x0.1.1", "in_progress") ]
  /\ fst selection = Ok (Some parent, false)
  /\ calls (snd selection) = (calls s1 ++ [["bd"; "ready"; "--json"; "--limit"; "50"]])%list
  /\ is_leaf_task parent = false
  /\ fst (all_children_complete "fb-x0.1" s1) = Ok false
  /\ fst (all_children_complete "fb-x0.1" (snd selection)) = Ok false
  /\ fst second = Ok (Next 2)
  /\ calls (snd second)
     = (calls s1 ++ [ ["bd"; "ready"; "--json"; "--limit"; "50"];
                      ["bd"; "show"; "fb-x0.1"; "--json"];
                      ["bd"; "update"; "fb-x0.1"; "--claim"];
                      ["bd"; "update"; "fb-x0.1"; "--status"; "closed"] ])%list
  /\ statuses (snd second) = [ ("fb-x0.1", "closed"); ("fb-x0.1.1", "in_progress") ]
  /\ orchestrate 3 cfg s = (Ok (Some 2), snd second).
Proof.
  vm_compute. repeat split; reflexivity.
Qed.

(** The ready path on four ready tasks of depths 0, 2, 1 and 2. *)
Lemma ready_path_selects_deepest_witness :
  let s := Demo.start Demo.ready_0212 Demo.done Demo.nothing_refused in
  let s2 := snd (get_ready_tasks None 50 s) in
  exists r : option BeadTask,
    get_next_prioritized_task None false s = (Ok (r, false), s2)
    /\ (Demo.ready_0212 = [] -> r = None)
    /\ (Demo.ready_0212 <> [] ->
        exists t, r = Some t /\ In t Demo.ready_0212
          /\ forall u, In u Demo.ready_0212 ->
               get_hierarchy_depth u <= get_hierarchy_depth t
               /\ (get_hierarchy_depth u = get_hierarchy_depth t ->
                   Str.le (id t) (id u) = true)).
Proof.
  intros s s2.
  apply (ready_path_selects_deepest None false s s s2 Demo.ready_0212).
  - left. split; reflexivity.
  - reflexivity.
Defined.

(** What the scheduler returns there: the depth 2 task with the smaller id. *)
Example ready_0212_first :
  fst (get_next_prioritized_task None false
         (Demo.start Demo.ready_0212 Demo.done Demo.nothing_refused))
  = Ok (Some (Demo.task "fb-x0.1.1" "task" "ready" (Some "fb-x0.1")), false).
Proof. reflexivity. Qed.

(** The resume walk on a parent in progress whose second child is in
    progress too. *)
Lemma resume_walk_spec_witness :
  let s := Demo.start Demo.family_in_progress Demo.done Demo.nothing_refused in
  let s0 := snd (get_in_progress_tasks None 50 s) in
  let walk := sort_tasks [ Demo.task "fb-x0.1" "task" "in_progress" (Some "fb-x0");
                           Demo.task "fb-x0.1.2" "task" "in_progress" (Some "fb-x0.1") ] in
  StronglySorted deeper_first walk
  /\ ((exists pre t post s1 s2,
          walk = (pre ++ t :: post)%list /\ skipped pre s0 s1
          /\ ((is_leaf_task t = true /\ s2 = s1)
              \/ (is_leaf_task t = false
                  /\ all_children_complete (id t) s1 = (Ok true, s2)))
          /\ get_next_prioritized_task None true s = (Ok (Some t, true), s2))
      \/ (exists s1,
            skipped walk s0 s1
            /\ get_next_prioritized_task None true s = ready_candidate None s1)
      \/ (exists pre t post s1 s2 e,
            walk = (pre ++ t :: post)%list /\ skipped pre s0 s1
            /\ is_leaf_task t = false
            /\ all_children_complete (id t) s1 = (Raise e, s2)
            /\ get_next_prioritized_task None true s = (Raise e, s2))).
Proof.
  intros s s0 walk.
  refine (proj2 (resume_walk_spec None s s0 _ _)).
  reflexivity.
Defined.

(** The leaf in progress is resumed before its parent. *)
Example family_in_progress_first :
  fst (get_next_prioritized_task None true
         (Demo.start Demo.family_in_progress Demo.done Demo.nothing_refused))
  = Ok (Some (Demo.task "fb-x0.1.2" "task" "in_progress" (Some "fb-x0.1")), true).
Proof. reflexivity. Qed.

(** The gate on a parent with one child closed and one in progress. *)
Lemma all_children_complete_spec_witness :
  let s := Demo.start Demo.family_in_progress Demo.done Demo.nothing_refused in
  let children := [ Demo.task "fb-x0.1.1" "task" "closed" (Some "fb-x0.1");
                    Demo.task "fb-x0.1.2" "task" "in_progress" (Some "fb-x0.1") ] in
  exists b : bool,
    all_children_complete "fb-x0.1" s = (Ok b, snd (get_child_tasks "fb-x0.1" s))
    /\ (children = [] -> b = true)
    /\ (Forall (fun c => status c = "done" \/ status c = "closed") children -> b = true)
    /\ (Exists (fun c => status c <> "done" /\ status c <> "closed") children -> b = false)
    /\ (Exists (fun c => status c = "ready" \/ status c = "in_progress"
                         \/ status c = "blocked") children -> b = false).
Proof.
  intros s children.
  apply (all_children_complete_spec "fb-x0.1" s (snd (get_child_tasks "fb-x0.1" s)) children).
  reflexivity.
Defined.

(** The gate when the store refuses the child query. *)
Lemma failed_child_query_is_complete_witness :
  let s := Demo.start Demo.family_in_progress Demo.done Demo.lists_children in
  get_child_tasks "fb-x0.1" s = (Ok [], after s (child_query "fb-x0.1") (world s))
  /\ all_children_complete "fb-x0.1" s
     = (Ok true, after s (child_query "fb-x0.1") (world s)).
Proof.
  intros s.
  apply (failed_child_query_is_complete "fb-x0.1" s
           {| returncode := 1; stdout := Blank |} (world s)).
  - reflexivity.
  - left. discriminate.
Defined.

(** C6, as stated, fails.  On an answer to the child query made of brackets
    nested two thousand deep, which is no valid JSON, [json.loads] raises
    RecursionError; on an answer that is no text, [subprocess.run] raises
    UnicodeDecodeError.  Neither is caught: [get_child_tasks] does not return
    the empty list, [all_children_complete] does not return true, and the
    loop in resume mode, which asks the gate for the parent in progress, ends
    with the exception. *)
Lemma failed_child_query_can_abort :
  let cfg := Demo.config false true None in
  let deep := {| returncode := 0; stdout := Unloadable TooDeep |} in
  (subprocess_run (child_query "fb-x0.1") None (world Script.deep_children)
   = (Returned deep, world Script.deep_children)
   /\ (forall data, stdout deep <> Json data)
   /\ fst (get_child_tasks "fb-x0.1" Script.deep_children) = Raise RecursionError
   /\ fst (get_child_tasks "fb-x0.1" Script.deep_children) <> Ok []
   /\ fst (all_children_complete "fb-x0.1" Script.deep_children) <> Ok true
   /\ fst (orchestrate 3 cfg Script.deep_children) = Raise RecursionError)
  /\ (subprocess_run (child_query "fb-x0.1") None (world Script.garbled_children)
      = (Raised UnicodeDecodeError, world Script.garbled_children)
      /\ fst (get_child_tasks "fb-x0.1" Script.garbled_children) <> Ok []
      /\ fst (all_children_complete "fb-x0.1" Script.garbled_children) <> Ok true
      /\ fst (orchestrate 3 cfg Script.garbled_children) = Raise UnicodeDecodeError).
Proof.
  intros cfg deep.
  repeat split; try reflexivity; try discriminate.
Qed.



(** A store that refuses every close: a ready parent, and a ready leaf whose
    agent succeeds. *)
Lemma failed_close_blocks_task_witness :
  let cfg := Demo.config false false None in
  let s := Demo.start Demo.ready_0212 Demo.done Demo.closes in
  let parent := Demo.task "fb-x0.1" "task" "ready" (Some "fb-x0") in
  let leaf := Demo.task "fb-x0.1.1" "task" "ready" (Some "fb-x0.1") in
  let p2 := snd (complete_task "fb-x0.1" None (snd (claim_task "fb-x0.1" s))) in
  let l2 := snd (run_agent leaf false (model_override cfg) (timeout_seconds cfg)
                   (snd (claim_task "fb-x0.1.1" s))) in
  let l3 := snd (complete_task "fb-x0.1.1" None l2) in
  calls (snd (process_task cfg 0 parent false s))
  = (calls p2 ++ [["bd"; "update"; "fb-x0.1"; "--status"; "blocked";
                   "--notes"; "Agent failed: Failed to mark task as done"]])%list
  /\ calls (snd (process_task cfg 0 leaf false s))
     = (calls l3 ++ [["bd"; "update"; "fb-x0.1.1"; "--status"; "blocked"; "--notes";
                      "Agent failed: Failed to mark task as done after successful agent run"]])%list.
Proof.
  intros cfg s parent leaf p2 l2 l3. split.
  - refine (proj2 (proj1 (failed_close_blocks_task cfg 0 parent false s
                            (snd (claim_task "fb-x0.1" s)) _ _ _) _ p2 _)).
    + reflexivity.
    + reflexivity.
    + right. split; reflexivity.
    + reflexivity.
    + reflexivity.
  - refine (proj2 (proj2 (failed_close_blocks_task cfg 0 leaf false s
                            (snd (claim_task "fb-x0.1.1" s)) _ _ _) _ None false l2 l3 _ _)).
    + reflexivity.
    + reflexivity.
    + right. split; reflexivity.
    + reflexivity.
    + reflexivity.
    + reflexivity.
Defined.

(** Three dry passes over a store with ready tasks. *)
Lemma dry_run_only_reads_witness :
  let cfg := Demo.config true true None in
  let s := Demo.start Demo.ready_0212 Demo.done Demo.nothing_refused in
  exists new : list (list string),
    calls (snd (orchestrate 3 cfg s)) = (calls s ++ new)%list
    /\ Forall (fun argv => is_read_query argv = true) new.
Proof.
  intros cfg s.
  destruct (proj1 (dry_run_only_reads 3 cfg s eq_refl)) as (new & E & F & _).
  exists new. split; assumption.
Defined.

(** What the log of those three passes holds. *)
Example dry_run_log :
  calls (snd (orchestrate 3 (Demo.config true true None)
                (Demo.start Demo.ready_0212 Demo.done Demo.nothing_refused)))
  = [ ["bd"; "list"; "--status"; "in_progress"; "--json"; "--limit"; "50"];
      ["bd"; "ready"; "--json"; "--limit"; "50"];
      ["bd"; "show"; "fb-x0.1.1"; "--json"];
      ["bd"; "list"; "--status"; "in_progress"; "--json"; "--limit"; "50"];
      ["bd"; "ready"; "--json"; "--limit"; "50"];
      ["bd"; "show"; "fb-x0.1.1"; "--json"];
      ["bd"; "list"; "--status"; "in_progress"; "--json"; "--limit"; "50"];
      ["bd"; "ready"; "--json"; "--limit"; "50"];
      ["bd"; "show"; "fb-x0.1.1"; "--json"] ].
Proof. reflexivity. Qed.

(** * Further properties of the orchestrator *)

(** ** Ids, depths and leaves *)

Lemma append_cons_assoc (pre suf x : string) (c : ascii) :
  (pre ++ String c suf) ++ x = pre ++ String c (suf ++ x).
Proof.
  induction pre as [|a pre IH]; simpl; [reflexivity | now rewrite IH].
Qed.

Lemma count_app (c : ascii) (a b : string) :
  Str.count c (a ++ b) = Str.count c a + Str.count c b.
Proof.
  induction a as [|x a IH]; simpl; [reflexivity | rewrite IH; lia].
Qed.

Lemma count_nonneg (c : ascii) (s : string) : 0 <= Str.count c s.
Proof.
  induction s as [|x s IH]; simpl; [lia|]. destruct (Ascii.eqb x c); lia.
Qed.

Lemma count_zero_not_In (c : ascii) (s : string) :
  ~ In c (list_ascii_of_string s) -> Str.count c s = 0.
Proof.
  induction s as [|x s IH]; simpl; intros H; [reflexivity|].
  destruct (Ascii.eqb x c) eqn:E.
  - apply Ascii.eqb_eq in E. tauto.
  - rewrite IH; tauto.
Qed.

Lemma depth_nonneg (task : BeadTask) : 0 <= get_hierarchy_depth task.
Proof.
  unfold get_hierarchy_depth.
  destruct (Str.contains "-" (id task)); [apply count_nonneg | lia].
Qed.

(** X1.  A task is a leaf exactly when its type is not [epic] and its id has
    a dash followed by at least two dots. *)
Theorem is_leaf_task_spec (task : BeadTask) :
  is_leaf_task task = true
  <-> task_type task <> "epic"
      /\ exists pre suf : string,
           id task = pre ++ String "-" suf
           /\ ~ In "-"%char (list_ascii_of_string pre)
           /\ (2 <= length (Str.occurrences "." suf))%nat.
Proof.
  unfold is_leaf_task. split.
  - destruct (String.eqb (task_type task) "epic") eqn:E; [discriminate|].
    apply String.eqb_neq in E. intros Hd. apply Z.leb_le in Hd.
    split; [assumption|].
    destruct (Str.contains "-" (id task)) eqn:C.
    + destruct (contains_decompose _ _ C) as (pre & suf & Hid & Hpre).
      exists pre, suf. split; [assumption|]. split.
      * intros Hin. apply contains_In in Hin. congruence.
      * rewrite (depth_of_split task pre suf Hid Hpre), count_occurrences in Hd. lia.
    + unfold get_hierarchy_depth in Hd. rewrite C in Hd. lia.
  - intros (Hty & pre & suf & Hid & Hpre & Hn).
    apply String.eqb_neq in Hty. rewrite Hty. apply Z.leb_le.
    rewrite (depth_of_split task pre suf Hid (contains_false_not_In _ _ Hpre)),
      count_occurrences. lia.
Qed.

(** X2.  The id of a child, made of the id of its parent, a dot and a
    segment without dots, is exactly one level deeper when the parent id has
    a dash; the child then sorts strictly before its parent. *)
Theorem child_is_one_deeper (parent child : BeadTask) (segment : string) :
  In "-"%char (list_ascii_of_string (id parent)) ->
  id child = id parent ++ String "." segment ->
  ~ In "."%char (list_ascii_of_string segment) ->
  get_hierarchy_depth child = get_hierarchy_depth parent + 1
  /\ key_lt (sort_key child) (sort_key parent) = true
  /\ key_lt (sort_key parent) (sort_key child) = false.
Proof.
  intros Hdash Hid Hseg. apply contains_In in Hdash.
  destruct (contains_decompose _ _ Hdash) as (pre & suf & Hp & Hpre).
  assert (Hd : get_hierarchy_depth child = get_hierarchy_depth parent + 1).
  { rewrite (depth_of_split parent pre suf Hp Hpre).
    rewrite (depth_of_split child pre (suf ++ String "." segment)).
    - rewrite count_app. simpl. rewrite (count_zero_not_In _ _ Hseg). lia.
    - rewrite Hid, Hp. apply append_cons_assoc.
    - assumption. }
  split; [exact Hd|]. unfold key_lt, sort_key. simpl. split.
  - apply orb_true_iff. left. apply Z.ltb_lt. lia.
  - apply orb_false_iff. split; [apply Z.ltb_ge; lia|].
    apply andb_false_iff. left. apply Z.eqb_neq. lia.
Qed.

Lemma child_is_one_deeper_witness :
  get_hierarchy_depth (Demo.task "fb-x0.1.2" "task" "ready" None)
  = get_hierarchy_depth (Demo.task "fb-x0.1" "task" "ready" None) + 1.
Proof.
  refine (proj1 (child_is_one_deeper (Demo.task "fb-x0.1" "task" "ready" None)
                   (Demo.task "fb-x0.1.2" "task" "ready" None) "2" _ eq_refl _)).
  - simpl. right. right. now left.
  - simpl. intros [H|[]]. discriminate H.
Defined.

(** ** Agent kinds *)

Lemma agent_kind_cases (k file : string) :
  dict_get AGENT_TYPE_TO_FILE k = Some file ->
  In (k, file) AGENT_TYPE_TO_FILE.
Proof.
  unfold dict_get, AGENT_TYPE_TO_FILE. cbn [find fst snd option_map].
  repeat match goal with
         | |- context [String.eqb ?a k] =>
             let E := fresh "E" in
             destruct (String.eqb a k) eqn:E;
             [apply String.eqb_eq in E; subst k; simpl; intros H; inversion H; tauto|]
         end.
  discriminate.
Qed.

Lemma agent_type_of_labels_known (ls : list string) :
  exists file, dict_get AGENT_TYPE_TO_FILE (agent_type_of_labels ls) = Some file.
Proof.
  induction ls as [|label rest IH]; simpl.
  - now exists "dev-general".
  - destruct (Str.startswith "agent:" label); [|exact IH].
    destruct (dict_get AGENT_TYPE_TO_FILE (nth 1 (Str.split ":" label) EmptyString))
      as [file|] eqn:E; [now exists file | exact IH].
Qed.

(** X3.  The agent kind of a task is always one of the configured kinds:
    [agent_name] never falls back to its default, is the kind prefixed by
    [dev-], and a fallback prompt exists for it. *)
Theorem agent_type_known (task : BeadTask) :
  exists file prompt : string,
    dict_get AGENT_TYPE_TO_FILE (agent_type task) = Some file
    /\ agent_name task = file
    /\ file = "dev-" ++ agent_type task
    /\ dict_get FALLBACK_PROMPTS (agent_type task) = Some prompt.
Proof.
  unfold agent_name, agent_type.
  destruct (agent_type_of_labels_known (labels task)) as (file & E).
  rewrite E. pose proof (agent_kind_cases _ _ E) as Hin.
  generalize dependent (agent_type_of_labels (labels task)). intros k _ Hin.
  simpl in Hin.
  repeat match goal with
         | H : _ \/ _ |- _ => destruct H as [H|H]
         | H : (_, _) = (_, _) |- _ => inversion H; subst; clear H
         | H : False |- _ => destruct H
         end;
    eexists _, _; repeat split; reflexivity.
Qed.

Lemma agent_label_selects (k file : string) :
  dict_get AGENT_TYPE_TO_FILE k = Some file ->
  Str.startswith "agent:" ("agent:" ++ k) = true
  /\ nth 1 (Str.split ":" ("agent:" ++ k)) EmptyString = k.
Proof.
  intros E. pose proof (agent_kind_cases _ _ E) as Hin. simpl in Hin.
  repeat match goal with
         | H : _ \/ _ |- _ => destruct H as [H|H]
         | H : (_, _) = (_, _) |- _ => inversion H; subst; clear H
         | H : False |- _ => destruct H
         end; split; reflexivity.
Qed.

Lemma agent_type_of_labels_cons (label : string) (rest : list string) :
  agent_type_of_labels (label :: rest)
  = if Str.startswith "agent:" label then
      match dict_get AGENT_TYPE_TO_FILE (nth 1 (Str.split ":" label) EmptyString) with
      | Some _ => nth 1 (Str.split ":" label) EmptyString
      | None => agent_type_of_labels rest
      end
    else agent_type_of_labels rest.
Proof. reflexivity. Qed.

(** X4.  Labels that do not start with [agent:], or whose kind is not
    configured, are passed over: when every label is such a label the agent
    kind is [general], and otherwise the first label [agent:<kind>] with a
    configured kind decides, whatever labels follow it. *)
Theorem first_agent_label_wins (task : BeadTask) (before : list string) :
  Forall (fun l => Str.startswith "agent:" l = false
                   \/ dict_get AGENT_TYPE_TO_FILE (nth 1 (Str.split ":" l) EmptyString) = None)
         before ->
  (labels task = before -> agent_type task = "general")
  /\ (forall (k file : string) (rest : list string),
        labels task = (before ++ ("agent:" ++ k)%string :: rest)%list ->
        dict_get AGENT_TYPE_TO_FILE k = Some file ->
        agent_type task = k).
Proof.
  intros Hbefore. unfold agent_type. split.
  - intros ->. induction Hbefore as [|l ls [Hl|Hl] _ IH];
      [reflexivity | |]; rewrite agent_type_of_labels_cons, Hl.
    + exact IH.
    + now destruct (Str.startswith "agent:" l).
  - intros k file rest -> Hk.
    induction Hbefore as [|l ls [Hl|Hl] _ IH]; cbn [app];
      rewrite agent_type_of_labels_cons.
    + destruct (agent_label_selects k file Hk) as [Hs Hn].
      now rewrite Hs, Hn, Hk.
    + now rewrite Hl.
    + rewrite Hl. now destruct (Str.startswith "agent:" l).
Qed.

Lemma first_agent_label_wins_witness :
  agent_type {| id := "fb-x0.1.1"; title := "t"; description := "d";
                labels := ["p1"; "agent:ops"; "agent:qa"; "agent:ai"];
                acceptance := "a"; status := "ready"; task_type := "task";
                parent_id := None |} = "qa".
Proof.
  refine (proj2 (first_agent_label_wins
                   {| id := "fb-x0.1.1"; title := "t"; description := "d";
                      labels := ["p1"; "agent:ops"; "agent:qa"; "agent:ai"];
                      acceptance := "a"; status := "ready"; task_type := "task";
                      parent_id := None |}
                   ["p1"; "agent:ops"] _) "qa" "dev-qa" ["agent:ai"] eq_refl eq_refl).
  constructor; [now left|]. constructor; [now right | constructor].
Defined.

(** ** The sort keeps the fetch order of equal ids *)

Lemma same_id_not_lt (x y : BeadTask) :
  id x = id y -> key_lt (sort_key y) (sort_key x) = false.
Proof.
  intros E. unfold key_lt, sort_key, get_hierarchy_depth. simpl. rewrite E.
  rewrite Z.ltb_irrefl, Z.eqb_refl. simpl.
  unfold Str.lt, String.ltb. now rewrite string_compare_refl.
Qed.

Lemma insert_sorted_filter (i : string) (x : BeadTask) (l : list BeadTask) :
  filter (fun t => String.eqb (id t) i) (insert_sorted x l)
  = filter (fun t => String.eqb (id t) i) (x :: l).
Proof.
  induction l as [|y l IH]; [reflexivity|].
  simpl insert_sorted.
  destruct (key_lt (sort_key y) (sort_key x)) eqn:E; [|reflexivity].
  simpl filter at 1. rewrite IH. simpl.
  destruct (String.eqb (id x) i) eqn:Ex, (String.eqb (id y) i) eqn:Ey; try reflexivity.
  apply String.eqb_eq in Ex, Ey.
  rewrite same_id_not_lt in E by congruence. discriminate.
Qed.

(** X5.  The sort is stable on ids: the tasks with a given id come out in the
    order in which they were fetched. *)
Theorem sort_tasks_stable (i : string) (l : list BeadTask) :
  filter (fun t => String.eqb (id t) i) (sort_tasks l)
  = filter (fun t => String.eqb (id t) i) l.
Proof.
  induction l as [|x l IH]; [reflexivity|].
  simpl sort_tasks. rewrite insert_sorted_filter. simpl. now rewrite IH.
Qed.

(** ** The project root *)

Lemma walk_up_spec (is_dir : Path -> bool) (cwd : Path) :
  match walk_up is_dir cwd with
  | Some root =>
      exists below : Path,
        cwd = (below ++ root)%list /\ root <> []
        /\ is_dir (".claude" :: root) = true
        /\ forall near far : Path,
             below = (near ++ far)%list -> far <> [] ->
             is_dir (".claude" :: far ++ root)%list = false
  | None =>
      forall near far : Path,
        cwd = (near ++ far)%list -> far <> [] -> is_dir (".claude" :: far) = false
  end.
Proof.
  induction cwd as [|x up IH]; simpl.
  - intros near far E. apply eq_sym, app_eq_nil in E. tauto.
  - destruct (is_dir (".claude" :: x :: up)) eqn:D.
    + exists []. repeat split; try assumption; [discriminate|].
      intros near far E. apply eq_sym, app_eq_nil in E. tauto.
    + destruct (walk_up is_dir up) as [root|].
      * destruct IH as (below & -> & Hr & Hd & Hnear).
        exists (x :: below). repeat split; try assumption.
        intros [|y near] far E Hfar; simpl in E.
        -- subst far. exact D.
        -- inversion E; subst. now apply Hnear with (near := near).
      * intros [|y near] far E Hfar; simpl in E.
        -- subst far. exact D.
        -- inversion E; subst. now apply IH with (near := near).
Qed.

(** X6.  [get_project_root] returns the nearest directory, from the working
    directory upwards and the file system root excluded, that holds a
    [.claude] directory; when there is none it returns the working
    directory, also when the file system root itself holds one. *)
Theorem get_project_root_spec (is_dir : Path -> bool) (cwd : Path) :
  (exists below : Path,
      cwd = (below ++ get_project_root is_dir cwd)%list
      /\ get_project_root is_dir cwd <> []
      /\ is_dir (".claude" :: get_project_root is_dir cwd) = true
      /\ forall near far : Path,
           below = (near ++ far)%list -> far <> [] ->
           is_dir (".claude" :: far ++ get_project_root is_dir cwd)%list = false)
  \/ (get_project_root is_dir cwd = cwd
      /\ forall near far : Path,
           cwd = (near ++ far)%list -> far <> [] -> is_dir (".claude" :: far) = false).
Proof.
  unfold get_project_root. pose proof (walk_up_spec is_dir cwd) as H.
  destruct (walk_up is_dir cwd) as [root|]; [left; exact H | right; now split].
Qed.

(** ** What a computation returns and what it spawns *)

Section Further.

Context {outside : Outside}.

Lemma yields_ret {A : Type} (Q : A -> Prop) (a : A) : Q a -> yields Q (ret a).
Proof.
  intros Ha s s' b H. inversion H; subst. exact Ha.
Qed.

Lemma yields_bind {A B : Type} (Q : B -> Prop) (m : M A) (k : A -> M B) :
  (forall a, yields Q (k a)) -> yields Q (bind m k).
Proof.
  intros Hk s s' b. unfold bind.
  destruct (m s) as [[a|e] s1]; [apply Hk | discriminate].
Qed.

Lemma spawns_only_ret {A : Type} (P : list string -> bool) (a : A) :
  spawns_only P (ret a).
Proof.
  intros s. exists []. split; [symmetry; apply app_nil_r | constructor].
Qed.

Lemma spawns_only_bind {A B : Type} (P : list string -> bool) (m : M A) (k : A -> M B) :
  spawns_only P m -> (forall a, spawns_only P (k a)) -> spawns_only P (bind m k).
Proof.
  intros Hm Hk s. unfold bind.
  destruct (Hm s) as (n1 & E1 & F1).
  destruct (m s) as [[a|e] s1]; simpl in E1.
  - destruct (Hk a s1) as (n2 & E2 & F2).
    exists (n1 ++ n2)%list. split.
    + rewrite E2, E1. symmetry. apply app_assoc.
    + apply Forall_app. now split.
  - exists n1. now split.
Qed.

Lemma spawns_only_run_command (P : list string -> bool) (cmd : list string) :
  P cmd = true -> spawns_only P (run_command cmd).
Proof.
  intros Hp s. exists [cmd]. split; [apply run_command_calls|].
  constructor; [assumption | constructor].
Qed.

Lemma spawns_only_reads {A : Type} (P : list string -> bool) (m : M A) :
  (forall argv, is_read_query argv = true -> P argv = true) ->
  only_reads m -> spawns_only P m.
Proof.
  intros Himp Hm s. destruct (Hm s) as (new & E & F).
  exists new. split; [exact E|].
  rewrite Forall_forall in *. auto.
Qed.

Lemma spawns_only_claim_task (P : list string -> bool) (i : string) :
  P (claim_command i) = true -> spawns_only P (claim_task i).
Proof.
  intros Hp. unfold claim_task.
  apply spawns_only_bind; [now apply spawns_only_run_command|].
  intros p. apply spawns_only_ret.
Qed.

Lemma spawns_only_complete_task (P : list string -> bool) (i : string) (sid : option string) :
  P (complete_command i sid) = true -> spawns_only P (complete_task i sid).
Proof.
  intros Hp. unfold complete_task.
  apply spawns_only_bind; [now apply spawns_only_run_command|].
  intros p. apply spawns_only_ret.
Qed.

Lemma spawns_only_fail_task (P : list string -> bool) (i reason : string) :
  P (fail_command i reason) = true -> spawns_only P (fail_task i reason).
Proof.
  intros Hp. unfold fail_task.
  apply spawns_only_bind; [now apply spawns_only_run_command|].
  intros p. apply spawns_only_ret.
Qed.

Lemma spawns_only_run_agent
  (P : list string -> bool) (task : BeadTask) (dry : bool) (mo : option string) (t : Z) :
  (forall file, P (claude_command task file mo) = true) ->
  spawns_only P (run_agent task dry mo t).
Proof.
  intros Hp s. unfold run_agent, bind, agent_exists, spawn, ret.
  destruct dry.
  - exists []. split; [symmetry; apply app_nil_r | constructor].
  - exists [claude_command task (agent_file_exists (agent_name task) (world s)) mo].
    split; [|constructor; [apply Hp | constructor]].
    destruct (subprocess_run _ _ _) as [[p|e] w].
    + destruct (returncode p =? 0); simpl; [|reflexivity].
      destruct (stdout p) as [| |[items|o|]|f]; reflexivity.
    + destruct e; reflexivity.
Qed.

(** What [process_task] spawns, whatever the branch taken. *)
Lemma spawns_only_process_task
  (P : list string -> bool) (cfg : Config) (iteration : Z) (task : BeadTask)
  (is_resumed : bool) :
  (is_resumed = false -> P (claim_command (id task)) = true) ->
  (auto_complete cfg = true -> forall sid, P (complete_command (id task) sid) = true) ->
  (forall reason, P (fail_command (id task) reason) = true) ->
  P (timeout_note_command (id task) (timeout_seconds cfg)) = true ->
  (forall file, P (claude_command task file (model_override cfg)) = true) ->
  spawns_only P (process_task cfg iteration task is_resumed).
Proof.
  intros Hclaim Hclose Hfail Hnote Hagent.
  assert (Hc : spawns_only P
                 (if negb is_resumed then claim_task (id task) else ret true)).
  { destruct is_resumed; cbn [negb]; [apply spawns_only_ret|].
    now apply spawns_only_claim_task, Hclaim. }
  unfold process_task. destruct (negb (is_leaf_task task)).
  - unfold close_parent. destruct (negb (dry_run cfg)); [|apply spawns_only_ret].
    apply spawns_only_bind; [exact Hc|].
    intros claimed_ok. destruct (negb claimed_ok); [apply spawns_only_ret|].
    apply spawns_only_bind; [|intros _; apply spawns_only_ret].
    destruct (auto_complete cfg) eqn:Ha; [|apply spawns_only_ret].
    apply spawns_only_bind; [now apply spawns_only_complete_task, Hclose|].
    intros closed. destruct (negb closed); [|apply spawns_only_ret].
    apply spawns_only_bind; [apply spawns_only_fail_task, Hfail|].
    intros _. apply spawns_only_ret.
  - unfold run_leaf. apply spawns_only_bind.
    + destruct (negb (dry_run cfg)); [|apply spawns_only_ret].
      destruct is_resumed; [apply spawns_only_ret|].
      now apply spawns_only_claim_task, Hclaim.
    + intros claimed_ok. destruct (negb claimed_ok); [apply spawns_only_ret|].
      apply spawns_only_bind; [now apply spawns_only_run_agent|].
      intros [[success sid] timed_out].
      apply spawns_only_bind; [|intros _; apply spawns_only_ret].
      unfold update_status. destruct (negb (dry_run cfg)); [|apply spawns_only_ret].
      destruct (success && auto_complete cfg) eqn:Hsa.
      * apply andb_true_iff in Hsa. destruct Hsa as [_ Ha].
        apply spawns_only_bind; [now apply spawns_only_complete_task, Hclose|].
        intros closed. destruct (negb closed); [|apply spawns_only_ret].
        apply spawns_only_bind; [apply spawns_only_fail_task, Hfail|].
        intros _. apply spawns_only_ret.
      * destruct timed_out.
        -- apply spawns_only_bind; [now apply spawns_only_run_command|].
           intros _. apply spawns_only_ret.
        -- destruct (negb success); [|apply spawns_only_ret].
           apply spawns_only_bind; [apply spawns_only_fail_task, Hfail|].
           intros _. apply spawns_only_ret.
Qed.

(** What the loop spawns: read queries, and what [process_task] spawns. *)
Lemma spawns_only_loop (P : list string -> bool) (fuel : nat) (cfg : Config) :
  (forall argv, is_read_query argv = true -> P argv = true) ->
  (forall iteration task is_resumed,
      spawns_only P (process_task cfg iteration task is_resumed)) ->
  forall iteration, spawns_only P (orchestrate_loop fuel cfg iteration).
Proof.
  intros Hread Hproc.
  induction fuel as [|fuel IH]; intros iteration; simpl; [apply spawns_only_ret|].
  apply spawns_only_bind; [|intros [|i]; [apply spawns_only_ret | apply IH]].
  unfold orchestrate_pass.
  destruct (match max_iterations cfg with Some n => n <=? iteration | None => false end);
    [apply spawns_only_ret|].
  apply spawns_only_bind.
  - apply spawns_only_reads; [exact Hread | apply only_reads_get_next].
  - intros [[t|] r]; [|apply spawns_only_ret].
    apply spawns_only_bind; [|intros full; apply Hproc].
    apply spawns_only_reads; [exact Hread | apply only_reads_get_task_details].
Qed.

(** ** Which commands a pass may spawn *)

Lemma concerns_update (i : string) (rest : list string) :
  concerns i ("bd" :: "update" :: i :: rest) = true.
Proof.
  unfold concerns. cbn. apply String.eqb_refl.
Qed.

(** X7.  Whatever happens to a selected task, the pass touches no other
    task: every command [process_task] spawns is the agent command line or a
    [bd update] of the id of that task. *)
Theorem process_task_concerns_its_task
  (cfg : Config) (iteration : Z) (task : BeadTask) (is_resumed : bool) :
  spawns_only (concerns (id task)) (process_task cfg iteration task is_resumed).
Proof.
  apply spawns_only_process_task.
  - intros _. apply concerns_update.
  - intros _ sid. apply concerns_update.
  - intros reason. apply concerns_update.
  - apply concerns_update.
  - intros file. reflexivity.
Qed.

(** X8.  A resumed task is never claimed again: with the resumed flag set,
    [process_task] spawns no [bd update --claim], in any mode and whatever
    the agent and the store answer. *)
Theorem resumed_task_is_not_claimed (cfg : Config) (iteration : Z) (task : BeadTask) :
  spawns_only (fun argv => negb (is_claim argv)) (process_task cfg iteration task true)
  /\ is_claim (claim_command (id task)) = true.
Proof.
  split; [|reflexivity].
  apply spawns_only_process_task.
  - discriminate.
  - intros _ sid. reflexivity.
  - intros reason. reflexivity.
  - reflexivity.
  - intros file. reflexivity.
Qed.

Lemma read_query_is_no_close (argv : list string) :
  is_read_query argv = true -> negb (is_close argv) = true.
Proof.
  destruct argv as [|prog [|verb [|i [|flag [|value rest]]]]]; try reflexivity.
  unfold is_read_query, is_close.
  destruct (String.eqb verb "update") eqn:E.
  - apply String.eqb_eq in E. subst verb. cbn.
    rewrite andb_false_r. discriminate.
  - rewrite andb_false_r. reflexivity.
Qed.

(** X9.  With auto-complete off the loop never asks the store to close a
    task, however many passes it makes; with it on, the close is the command
    [complete_task] spawns. *)
Theorem no_auto_complete_never_closes (fuel : nat) (cfg : Config) (iteration : Z) :
  auto_complete cfg = false ->
  spawns_only (fun argv => negb (is_close argv)) (orchestrate_loop fuel cfg iteration)
  /\ (forall i sid, is_close (complete_command i sid) = true).
Proof.
  intros Hauto. split; [|reflexivity].
  apply spawns_only_loop; [exact read_query_is_no_close|].
  intros it task r. apply spawns_only_process_task.
  - intros _. reflexivity.
  - rewrite Hauto. discriminate.
  - intros reason. reflexivity.
  - reflexivity.
  - intros file. reflexivity.
Qed.

(** X10.  The loop runs no store command beyond its read queries and
    [bd update], and no other program than the agent: every command it
    spawns is [bd ready], [bd list], [bd show], [bd update] or [claude]. *)
Theorem loop_spawns_known_commands (fuel : nat) (cfg : Config) (iteration : Z) :
  spawns_only
    (fun argv => is_read_query argv || concerns (nth 2 argv EmptyString) argv)
    (orchestrate_loop fuel cfg iteration).
Proof.
  apply spawns_only_loop.
  - intros argv ->. reflexivity.
  - intros it task r. apply spawns_only_process_task.
    + intros _. cbn. now rewrite String.eqb_refl.
    + intros _ sid. cbn. now rewrite String.eqb_refl.
    + intros reason. cbn. now rewrite String.eqb_refl.
    + cbn. now rewrite String.eqb_refl.
    + intros file. reflexivity.
Qed.

(** ** Selection and refresh *)

Lemma ready_candidate_flag
  (lf : option string) (s s' : State) (r : option BeadTask) (flag : bool) :
  ready_candidate lf s = (Ok (r, flag), s') -> flag = false.
Proof.
  unfold ready_candidate, bind, ret, raise.
  destruct (get_ready_tasks lf 50 s) as [[[|x l]|e] s1]; try discriminate.
  - intros H. now inversion H.
  - destruct (sort_tasks (x :: l)); intros H; now inversion H.
Qed.

(** X11.  The resumed flag is set only in resume mode, and then the task is
    the one the in-progress block selected and the ready list has not been
    queried; when no task is returned the flag is clear. *)
Theorem resumed_flag_spec
  (lf : option string) (resume : bool) (s s' : State)
  (r : option BeadTask) (flag : bool) :
  get_next_prioritized_task lf resume s = (Ok (r, flag), s') ->
  (flag = true ->
   resume = true
   /\ exists t, r = Some t /\ resume_candidate lf s = (Ok (Some t), s'))
  /\ (r = None -> flag = false).
Proof.
  unfold get_next_prioritized_task. destruct resume.
  - unfold bind.
    destruct (resume_candidate lf s) as [[[t|]|e] s1] eqn:E; try discriminate.
    + intros H. inversion H; subst. split; [|discriminate].
      intros _. split; [reflexivity|]. now exists t.
    + intros H. rewrite (ready_candidate_flag _ _ _ _ _ H).
      split; [discriminate | reflexivity].
  - intros H. rewrite (ready_candidate_flag _ _ _ _ _ H).
    split; [discriminate | reflexivity].
Qed.

Lemma get_task_details_failed (task_id : string) (s : State) (p : CompletedProcess) (w : World) :
  subprocess_run ["bd"; "show"; task_id; "--json"] None (world s) = (Returned p, w) ->
  returncode p <> 0 \/ stdout p = Blank \/ stdout p = NotJson ->
  get_task_details task_id s = (Ok None, after s ["bd"; "show"; task_id; "--json"] w).
Proof.
  intros Hrun Hfail. unfold get_task_details, bind.
  rewrite (run_command_returned _ _ _ _ Hrun).
  destruct (returncode p =? 0) eqn:Hrc; simpl; [|reflexivity].
  apply Z.eqb_eq in Hrc.
  destruct Hfail as [Hne|[Hb|Hj]]; [contradiction| |]; now (rewrite Hb || rewrite Hj).
Qed.

(** X12.  When [bd show] ends with a non-zero exit code, with blank output,
    or with output that [json.loads] rejects with JSONDecodeError, the pass
    goes on with the snapshot the scheduler returned. *)
Theorem details_failure_keeps_snapshot
  (cfg : Config) (iteration : Z) (s sa : State) (selected : BeadTask) (is_resumed : bool)
  (p : CompletedProcess) (w : World) :
  match max_iterations cfg with Some n => iteration < n | None => True end ->
  get_next_prioritized_task (label_filter cfg) (resume cfg) s
  = (Ok (Some selected, is_resumed), sa) ->
  subprocess_run ["bd"; "show"; id selected; "--json"] None (world sa) = (Returned p, w) ->
  returncode p <> 0 \/ stdout p = Blank \/ stdout p = NotJson ->
  orchestrate_pass cfg iteration s
  = process_task cfg iteration selected is_resumed
      (after sa ["bd"; "show"; id selected; "--json"] w).
Proof.
  intros Hmax Hsel Hrun Hfail.
  exact (pass_selected cfg iteration s sa _ selected is_resumed None Hmax Hsel
           (get_task_details_failed _ _ _ _ Hrun Hfail)).
Qed.

(** X13.  When [bd show] succeeds with an empty JSON list, [data[0]] raises
    IndexError, which nothing catches: the pass and the whole loop end with
    that exception, and nothing is spawned after the query. *)
Theorem empty_details_abort_the_loop
  (fuel : nat) (cfg : Config) (iteration : Z) (s sa : State)
  (selected : BeadTask) (is_resumed : bool) (p : CompletedProcess) (w : World) :
  match max_iterations cfg with Some n => iteration < n | None => True end ->
  get_next_prioritized_task (label_filter cfg) (resume cfg) s
  = (Ok (Some selected, is_resumed), sa) ->
  subprocess_run ["bd"; "show"; id selected; "--json"] None (world sa) = (Returned p, w) ->
  returncode p = 0 ->
  stdout p = Json (JList []) ->
  orchestrate_pass cfg iteration s
  = (Raise IndexError, after sa ["bd"; "show"; id selected; "--json"] w)
  /\ orchestrate_loop (S fuel) cfg iteration s
     = (Raise IndexError, after sa ["bd"; "show"; id selected; "--json"] w).
Proof.
  intros Hmax Hsel Hrun Hrc Hout.
  assert (Hpass : orchestrate_pass cfg iteration s
                  = (Raise IndexError, after sa ["bd"; "show"; id selected; "--json"] w)).
  { unfold orchestrate_pass.
    replace (match max_iterations cfg with Some n => n <=? iteration | None => false end)
      with false
      by (destruct (max_iterations cfg); [symmetry; now apply Z.leb_gt | reflexivity]).
    unfold bind at 1. rewrite Hsel. unfold bind at 1.
    unfold get_task_details, bind.
    rewrite (run_command_returned _ _ _ _ Hrun), Hrc, Hout. reflexivity. }
  split; [exact Hpass|].
  simpl. unfold bind. now rewrite Hpass.
Qed.

(** X14.  When the claim of a task that is not resumed fails, the pass ends
    there: nothing but the claim has been spawned, the agent is not run, and
    the loop goes on with the iteration count increased by one; for leaves
    and for parents alike. *)
Theorem failed_claim_skips_task
  (cfg : Config) (iteration : Z) (task : BeadTask) (s : State)
  (p : CompletedProcess) (w : World) :
  dry_run cfg = false ->
  subprocess_run (claim_command (id task)) None (world s) = (Returned p, w) ->
  returncode p <> 0 ->
  process_task cfg iteration task false s
  = (Ok (Next (iteration + 1)), after s (claim_command (id task)) w).
Proof.
  intros Hdry Hrun Hrc.
  assert (Hclaim : claim_task (id task) s
                   = (Ok false, after s (claim_command (id task)) w)).
  { unfold claim_task, bind. rewrite (run_command_returned _ _ _ _ Hrun).
    unfold ret. apply Z.eqb_neq in Hrc. now rewrite Hrc. }
  unfold process_task, close_parent, run_leaf. rewrite Hdry. cbn [negb].
  destruct (is_leaf_task task); cbn [negb]; unfold bind at 1; now rewrite Hclaim.
Qed.

(** ** Counting passes *)

Lemma process_task_next
  (cfg : Config) (iteration : Z) (task : BeadTask) (is_resumed : bool) :
  yields (fun step => step = Next (iteration + 1))
         (process_task cfg iteration task is_resumed).
Proof.
  unfold process_task. destruct (negb (is_leaf_task task)).
  - unfold close_parent. destruct (negb (dry_run cfg)); [|now apply yields_ret].
    apply yields_bind. intros c. destruct (negb c); [now apply yields_ret|].
    apply yields_bind. intros _. now apply yields_ret.
  - unfold run_leaf. apply yields_bind. intros c.
    destruct (negb c); [now apply yields_ret|].
    apply yields_bind. intros [[success sid] timed_out].
    apply yields_bind. intros _. now apply yields_ret.
Qed.

Lemma pass_step (cfg : Config) (iteration : Z) :
  yields (fun step => step = Break \/ step = Next (iteration + 1))
         (orchestrate_pass cfg iteration).
Proof.
  unfold orchestrate_pass.
  destruct (match max_iterations cfg with Some n => n <=? iteration | None => false end);
    [apply yields_ret; now left|].
  apply yields_bind. intros [[t|] r]; [|apply yields_ret; now left].
  apply yields_bind. intros full s s' step H. right.
  exact (process_task_next cfg iteration _ r s s' step H).
Qed.

(** X15.  A pass either ends the loop or increases the iteration count by
    exactly one, whatever became of the task: success, failure, time-out,
    failed claim or dry run. *)
Theorem pass_counts_one
  (cfg : Config) (iteration : Z) (s s' : State) (step : Step) :
  orchestrate_pass cfg iteration s = (Ok step, s') ->
  step = Break \/ step = Next (iteration + 1).
Proof.
  apply pass_step.
Qed.

Lemma pass_cap_reached (cfg : Config) (iteration cap : Z) (s : State) :
  max_iterations cfg = Some cap -> cap <= iteration ->
  orchestrate_pass cfg iteration s = (Ok Break, s).
Proof.
  intros Hm Hle. unfold orchestrate_pass. rewrite Hm.
  apply Z.leb_le in Hle. now rewrite Hle.
Qed.

Lemma capped_loop_bounds
  (fuel : nat) (cfg : Config) (iteration cap : Z) (s : State) :
  max_iterations cfg = Some cap ->
  (Z.to_nat (cap - iteration) < fuel)%nat ->
  match fst (orchestrate_loop fuel cfg iteration s) with
  | Ok (Some n) => iteration <= n <= Z.max iteration cap
  | Ok None => False
  | Raise _ => True
  end.
Proof.
  intros Hm. revert iteration s.
  induction fuel as [|fuel IH]; intros iteration s Hfuel; [lia|].
  simpl. unfold bind.
  destruct (orchestrate_pass cfg iteration s) as [[step|e] s1] eqn:E; [|exact I].
  destruct (pass_step _ _ _ _ _ E) as [->| ->]; [simpl; lia|].
  destruct (Z_le_gt_dec cap iteration) as [Hle|Hgt].
  - rewrite (pass_cap_reached cfg iteration cap s Hm Hle) in E. discriminate.
  - assert (Hf : (Z.to_nat (cap - (iteration + 1)) < fuel)%nat) by lia.
    pose proof (IH (iteration + 1) s1 Hf) as Hres.
    destruct (fst (orchestrate_loop fuel cfg (iteration + 1) s1)) as [[n|]|e];
      [lia | assumption | exact I].
Qed.

(** X16.  With an iteration cap the loop ends: [cap - iteration] passes and
    one more suffice, the count returned lies between the starting count and
    the cap, and when the cap is already reached (as for a cap of zero or
    less) the loop ends at once without spawning anything. *)
Theorem capped_loop_terminates
  (fuel : nat) (cfg : Config) (iteration cap : Z) (s : State) :
  max_iterations cfg = Some cap ->
  (Z.to_nat (cap - iteration) < fuel)%nat ->
  match fst (orchestrate_loop fuel cfg iteration s) with
  | Ok (Some n) => iteration <= n <= Z.max iteration cap
  | Ok None => False
  | Raise _ => True
  end
  /\ (cap <= iteration -> orchestrate_loop fuel cfg iteration s = (Ok (Some iteration), s)).
Proof.
  intros Hm Hfuel. split; [now apply capped_loop_bounds|].
  intros Hle. destruct fuel as [|fuel]; [lia|].
  simpl. unfold bind. now rewrite (pass_cap_reached cfg iteration cap s Hm Hle).
Qed.

(** X17.  With resume mode off, a ready query that ends with a non-zero
    exit code, with blank output, or with output that [json.loads] rejects
    with JSONDecodeError is taken for an empty list: the pass ends the loop,
    which returns the count reached so far. *)
Theorem failed_ready_query_ends_loop
  (fuel : nat) (cfg : Config) (iteration : Z) (s : State)
  (p : CompletedProcess) (w : World) :
  let query := with_label ["bd"; "ready"; "--json"; "--limit"; "50"] (label_filter cfg) in
  resume cfg = false ->
  match max_iterations cfg with Some n => iteration < n | None => True end ->
  subprocess_run query None (world s) = (Returned p, w) ->
  returncode p <> 0 \/ stdout p = Blank \/ stdout p = NotJson ->
  orchestrate_pass cfg iteration s = (Ok Break, after s query w)
  /\ orchestrate_loop (S fuel) cfg iteration s = (Ok (Some iteration), after s query w).
Proof.
  intros query Hres Hmax Hrun Hfail.
  assert (Hpass : orchestrate_pass cfg iteration s = (Ok Break, after s query w)).
  { unfold orchestrate_pass.
    replace (match max_iterations cfg with Some n => n <=? iteration | None => false end)
      with false
      by (destruct (max_iterations cfg); [symmetry; now apply Z.leb_gt | reflexivity]).
    rewrite Hres. unfold get_next_prioritized_task, ready_candidate, get_ready_tasks.
    unfold bind at 1. unfold bind at 1.
    change (Str.of_int 50) with "50". fold query.
    now rewrite (fetch_tasks_failed query s p w Hrun Hfail). }
  split; [exact Hpass|].
  simpl. unfold bind. now rewrite Hpass.
Qed.

(** ** The agent run *)

(** X19.  How [run_agent] reads the agent subprocess, once it is spawned.
    A non-zero exit code is a failure.  With exit code 0: output that is a
    JSON object is a success with the session id of the object; output that
    is blank or that [json.loads] rejects with JSONDecodeError is a success
    without a session; output that decodes to something that is no object, or
    on which [json.loads] raises another exception, is a failure.  The
    time-out of the subprocess is reported as a time-out, any other exception
    of it that is an [Exception] as a failure, and an exception that is none,
    such as an interrupt from the keyboard, is raised again. *)
Theorem run_agent_reads_the_agent
  (task : BeadTask) (mo : option string) (t : Z) (s : State)
  (r : SubprocessResult) (w : World) :
  let cmd := claude_command task (agent_file_exists (agent_name task) (world s)) mo in
  subprocess_run cmd (Some t) (world s) = (r, w) ->
  (forall p, r = Returned p -> returncode p <> 0 ->
     run_agent task false mo t s = (Ok (false, None, false), after s cmd w))
  /\ (forall p o, r = Returned p -> returncode p = 0 -> stdout p = Json (JDict o) ->
        run_agent task false mo t s = (Ok (true, j_session_id o, false), after s cmd w))
  /\ (forall p, r = Returned p -> returncode p = 0 ->
        stdout p = Blank \/ stdout p = NotJson ->
        run_agent task false mo t s = (Ok (true, None, false), after s cmd w))
  /\ (forall p, r = Returned p -> returncode p = 0 ->
        (exists items, stdout p = Json (JList items)) \/ stdout p = Json JOther
        \/ (exists f, stdout p = Unloadable f) ->
        run_agent task false mo t s = (Ok (false, None, false), after s cmd w))
  /\ (r = Raised TimeoutExpired ->
        run_agent task false mo t s = (Ok (false, None, true), after s cmd w))
  /\ (forall e, r = Raised e -> e <> TimeoutExpired -> is_exception e = true ->
        run_agent task false mo t s = (Ok (false, None, false), after s cmd w))
  /\ (forall e, r = Raised e -> is_exception e = false ->
        run_agent task false mo t s = (Raise e, after s cmd w)).
Proof.
  intros cmd Hrun. unfold run_agent, bind, agent_exists, spawn, ret, raise. fold cmd.
  rewrite Hrun. unfold after. repeat split.
  - intros p -> Hrc. apply Z.eqb_neq in Hrc. now rewrite Hrc.
  - intros p o -> Hrc Hout. now rewrite Hrc, Hout.
  - intros p -> Hrc [Hout|Hout]; now rewrite Hrc, Hout.
  - intros p -> Hrc [(items & Hout)|[Hout|(f & Hout)]]; now rewrite Hrc, Hout.
  - intros ->. reflexivity.
  - intros e -> Hne Hexc. destruct e; try reflexivity; try discriminate Hexc.
    now contradiction Hne.
  - intros e -> Hexc. destruct e; try discriminate Hexc; reflexivity.
Qed.

Lemma run_agent_timed_out_false
  (task : BeadTask) (mo : option string) (t : Z) (s s' : State)
  (session_id : option string) (timed_out : bool) :
  run_agent task false mo t s = (Ok (true, session_id, timed_out), s') ->
  timed_out = false.
Proof.
  destruct timed_out; [|reflexivity].
  intros H. destruct (run_agent_timed_out _ _ _ _ _ _ _ _ H). discriminate.
Qed.

(** X20.  With auto-complete off, nothing closes or blocks a task whose work
    is done: a parent is claimed and left as it is, and a leaf whose agent
    succeeds gets no store command after the agent run. *)
Theorem no_auto_complete_leaves_task
  (cfg : Config) (iteration : Z) (task : BeadTask) (is_resumed : bool) (s s1 : State) :
  dry_run cfg = false ->
  auto_complete cfg = false ->
  claimed task is_resumed s s1 ->
  (is_leaf_task task = false ->
   process_task cfg iteration task is_resumed s = (Ok (Next (iteration + 1)), s1))
  /\ (is_leaf_task task = true ->
      forall session_id timed_out s2,
        run_agent task false (model_override cfg) (timeout_seconds cfg) s1
        = (Ok (true, session_id, timed_out), s2) ->
        process_task cfg iteration task is_resumed s = (Ok (Next (iteration + 1)), s2)).
Proof.
  intros Hdry Hauto Hclaim. split.
  - intros Hleaf. unfold process_task, close_parent.
    rewrite Hleaf, Hdry, Hauto. cbn [negb].
    destruct Hclaim as [[-> ->]|[-> Hc]]; cbn [negb].
    + reflexivity.
    + unfold bind at 1. rewrite Hc. reflexivity.
  - intros Hleaf session_id timed_out s2 Hrun.
    rewrite (leaf_after_claim cfg iteration task is_resumed s s1 Hleaf Hdry Hclaim).
    unfold bind at 1. rewrite Hrun.
    rewrite (run_agent_timed_out_false _ _ _ _ _ _ _ Hrun).
    unfold update_status. rewrite Hdry, Hauto. reflexivity.
Qed.

(** ** Decoding the answers of the store *)




(** ** The command line *)

(** X22.  [main]: with [--list-agents] nothing is spawned; with [--single]
    or [--dry-run] the loop makes one pass at most and ends, having counted
    zero or one task; with [--dry-run] only read queries are spawned. *)
Theorem main_single_pass (fuel : nat) (args : Args) (s : State) :
  (arg_list_agents args = true -> main fuel args s = (Ok Listed, s))
  /\ (arg_list_agents args = false ->
      arg_single args || arg_dry_run args = true ->
      (2 <= fuel)%nat ->
      match fst (main fuel args s) with
      | Ok (Orchestrated (Some n)) => 0 <= n <= 1
      | Ok (Orchestrated None) => False
      | Ok Listed => False
      | Raise _ => True
      end)
  /\ (arg_list_agents args = false -> arg_dry_run args = true ->
      only_reads (main fuel args)).
Proof.
  unfold main. repeat split.
  - intros ->. reflexivity.
  - intros -> Hone Hfuel. unfold orchestrate.
    assert (Hm : max_iterations (main_config args) = Some 1)
      by (unfold main_config; simpl; now rewrite Hone).
    assert (Hf : (Z.to_nat (1 - 0) < fuel)%nat) by lia.
    pose proof (capped_loop_bounds fuel (main_config args) 0 1 s Hm Hf) as Hb.
    destruct (orchestrate_loop fuel (main_config args) 0 s) as [[[n|]|e] s1];
      simpl in *; [lia | assumption | destruct e; exact I].
  - intros -> Hdry s0. unfold orchestrate.
    destruct (only_reads_loop fuel (main_config args) 0 Hdry s0) as (new & E & F).
    exists new. split; [|exact F].
    destruct (orchestrate_loop fuel (main_config args) 0 s0) as [[processed|e] s1];
      [exact E | destruct e; exact E].
Qed.

End Further.

(** * The further properties on the small stores *)

Lemma no_auto_complete_never_closes_witness :
  spawns_only (fun argv => negb (is_close argv))
    (@orchestrate_loop Demo.outside 3 (Demo.manual false None) 0).
Proof.
  exact (proj1 (no_auto_complete_never_closes 3 (Demo.manual false None) 0 eq_refl)).
Defined.

Lemma resumed_flag_spec_witness :
  let s := Demo.start Demo.family_in_progress Demo.done Demo.nothing_refused in
  let leaf := Demo.task "fb-x0.1.2" "task" "in_progress" (Some "fb-x0.1") in
  let s' := snd (get_next_prioritized_task None true s) in
  (true = true ->
   true = true
   /\ exists t, Some leaf = Some t /\ resume_candidate None s = (Ok (Some t), s'))
  /\ (Some leaf = None -> true = false).
Proof.
  intros s leaf s'.
  apply (resumed_flag_spec None true s s' (Some leaf) true).
  reflexivity.
Defined.

Lemma details_failure_keeps_snapshot_witness :
  let cfg := Demo.config true false None in
  let s := Demo.start Demo.ready_0212 Demo.done Demo.shows in
  let sa := snd (get_next_prioritized_task None false s) in
  let selected := Demo.task "fb-x0.1.1" "task" "ready" (Some "fb-x0.1") in
  orchestrate_pass cfg 0 s
  = process_task cfg 0 selected false
      (after sa ["bd"; "show"; "fb-x0.1.1"; "--json"] (world sa)).
Proof.
  intros cfg s sa selected.
  apply (details_failure_keeps_snapshot cfg 0 s sa selected false
           {| returncode := 1; stdout := Blank |} (world sa)).
  - exact I.
  - reflexivity.
  - reflexivity.
  - left. discriminate.
Defined.

Lemma empty_details_abort_the_loop_witness :
  let cfg := Demo.config false false None in
  let show := ["bd"; "show"; "fb-x0.1.1"; "--json"] in
  let sa := snd (get_next_prioritized_task None false Script.vanished) in
  orchestrate_loop 5 cfg 0 Script.vanished = (Raise IndexError, after sa show (world sa)).
Proof.
  intros cfg show sa.
  refine (proj2 (empty_details_abort_the_loop 4 cfg 0 Script.vanished sa
                   (Demo.task "fb-x0.1.1" "task" "ready" (Some "fb-x0.1")) false
                   {| returncode := 0; stdout := Json (JList []) |} (world sa) _ _ _ _ _)).
  - exact I.
  - reflexivity.
  - reflexivity.
  - reflexivity.
  - reflexivity.
Defined.

Lemma failed_claim_skips_task_witness :
  let cfg := Demo.config false false None in
  let s := Demo.start Demo.family_in_progress Demo.done Demo.nothing_refused in
  let parent := Demo.task "fb-x0.1" "task" "in_progress" (Some "fb-x0") in
  process_task cfg 0 parent false s
  = (Ok (Next (0 + 1)), after s (claim_command "fb-x0.1") (world s)).
Proof.
  intros cfg s parent.
  apply (failed_claim_skips_task cfg 0 parent s {| returncode := 1; stdout := Blank |}
           (world s)).
  - reflexivity.
  - reflexivity.
  - discriminate.
Defined.

Lemma pass_counts_one_witness :
  let cfg := Demo.config true false None in
  let s := Demo.start Demo.ready_0212 Demo.done Demo.nothing_refused in
  Next 1 = Break \/ Next 1 = Next (0 + 1).
Proof.
  intros cfg s.
  apply (pass_counts_one cfg 0 s (snd (orchestrate_pass cfg 0 s)) (Next 1)).
  reflexivity.
Defined.

Lemma capped_loop_terminates_witness :
  let cfg := Demo.config true false (Some 2) in
  let s := Demo.start Demo.ready_0212 Demo.done Demo.nothing_refused in
  match fst (orchestrate_loop 3 cfg 0 s) with
  | Ok (Some n) => 0 <= n <= Z.max 0 2
  | Ok None => False
  | Raise _ => True
  end.
Proof.
  intros cfg s.
  refine (proj1 (capped_loop_terminates 3 cfg 0 2 s eq_refl _)).
  simpl. lia.
Defined.

Lemma failed_ready_query_ends_loop_witness :
  let cfg := Demo.config false false None in
  let s := Demo.start Demo.ready_0212 Demo.done Demo.readies in
  orchestrate_loop 4 cfg 0 s
  = (Ok (Some 0), after s ["bd"; "ready"; "--json"; "--limit"; "50"] (world s)).
Proof.
  intros cfg s.
  refine (proj2 (failed_ready_query_ends_loop 3 cfg 0 s
                   {| returncode := 1; stdout := Blank |} (world s) _ _ _ _)).
  - reflexivity.
  - exact I.
  - reflexivity.
  - left. discriminate.
Defined.

Lemma run_agent_reads_the_agent_witness :
  let s := Demo.start Demo.ready_0212 Demo.done Demo.nothing_refused in
  let leaf := Demo.task "fb-x0.1.1" "task" "ready" (Some "fb-x0.1") in
  run_agent leaf false None 1800 s
  = (Ok (true, None, false),
     after s (claude_command leaf (agent_file_exists (agent_name leaf) (world s)) None)
           (world s)).
Proof.
  intros s leaf.
  refine (proj1 (proj2 (proj2
            (run_agent_reads_the_agent leaf None 1800 s Demo.done (world s) eq_refl)))
            {| returncode := 0; stdout := Blank |} eq_refl eq_refl _).
  now left.
Defined.

Lemma no_auto_complete_leaves_task_witness :
  let cfg := Demo.manual false None in
  let s := Demo.start Demo.ready_0212 Demo.done Demo.nothing_refused in
  let parent := Demo.task "fb-x0.1" "task" "ready" (Some "fb-x0") in
  process_task cfg 0 parent false s
  = (Ok (Next (0 + 1)), snd (claim_task "fb-x0.1" s)).
Proof.
  intros cfg s parent.
  refine (proj1 (no_auto_complete_leaves_task cfg 0 parent false s
                   (snd (claim_task "fb-x0.1" s)) _ _ _) _).
  - reflexivity.
  - reflexivity.
  - right. split; reflexivity.
  - reflexivity.
Defined.


Lemma main_single_pass_witness :
  let s := Demo.start Demo.ready_0212 Demo.done Demo.nothing_refused in
  match fst (main 2 Demo.dry_args s) with
  | Ok (Orchestrated (Some n)) => 0 <= n <= 1
  | Ok (Orchestrated None) => False
  | Ok Listed => False
  | Raise _ => True
  end.
Proof.
  intros s.
  refine (proj1 (proj2 (main_single_pass 2 Demo.dry_args s)) eq_refl eq_refl _).
  lia.
Defined.

(** What [main] returns there: one task counted. *)
Example main_dry_run_counts_one :
  fst (main 2 Demo.dry_args
         (Demo.start Demo.ready_0212 Demo.done Demo.nothing_refused))
  = Ok (Orchestrated (Some 1)).
Proof. reflexivity. Qed.

(** ** Leaves in progress come first *)

Section ResumeFirst.

Context {outside : Outside}.

Lemma resume_walk_finds_leaf (l : list BeadTask) (s : State) :
  Exists (fun t => is_leaf_task t = true) l ->
  match fst (resume_walk l s) with
  | Ok (Some _) => True
  | Ok None => False
  | Raise _ => True
  end.
Proof.
  revert s. induction l as [|t l IH]; intros s Hex; [inversion Hex|].
  simpl. destruct (is_leaf_task t) eqn:Hleaf; [exact I|].
  unfold bind.
  destruct (all_children_complete (id t) s) as [[[|]|e] s1]; try exact I.
  apply IH. inversion Hex; subst; [congruence | assumption].
Qed.

(** X23.  In resume mode, as long as one of the in-progress tasks fetched is
    a leaf, the scheduler does not go to the ready list: it returns a task
    with the resumed flag set, unless a gate query raises. *)
Theorem leaf_in_progress_is_resumed
  (lf : option string) (s s0 : State) (fetched : list BeadTask) :
  get_in_progress_tasks lf 50 s = (Ok fetched, s0) ->
  Exists (fun t => is_leaf_task t = true) fetched ->
  match fst (get_next_prioritized_task lf true s) with
  | Ok (Some _, flag) => flag = true
  | Ok (None, _) => False
  | Raise _ => True
  end.
Proof.
  intros Hfetch Hex. unfold get_next_prioritized_task, resume_candidate.
  unfold bind at 1. unfold bind at 1. rewrite Hfetch.
  destruct fetched as [|x l]; [inversion Hex|].
  assert (Hs : Exists (fun t => is_leaf_task t = true) (sort_tasks (x :: l))).
  { apply Exists_exists in Hex. destruct Hex as (t & Hin & Hleaf).
    apply Exists_exists. exists t. split; [|assumption].
    apply (Permutation_in _ (Permutation_sym (sort_tasks_perm (x :: l)))). exact Hin. }
  pose proof (resume_walk_finds_leaf _ s0 Hs) as Hw.
  destruct (resume_walk (sort_tasks (x :: l)) s0) as [[[t|]|e] s1]; simpl in *;
    [reflexivity | contradiction | exact I].
Qed.

End ResumeFirst.

Lemma leaf_in_progress_is_resumed_witness :
  let s := Demo.start Demo.family_in_progress Demo.done Demo.nothing_refused in
  match fst (get_next_prioritized_task None true s) with
  | Ok (Some _, flag) => flag = true
  | Ok (None, _) => False
  | Raise _ => True
  end.
Proof.
  intros s.
  apply (leaf_in_progress_is_resumed None s (snd (get_in_progress_tasks None 50 s))
           [ Demo.task "fb-x0.1" "task" "in_progress" (Some "fb-x0");
             Demo.task "fb-x0.1.2" "task" "in_progress" (Some "fb-x0.1") ]).
  - reflexivity.
  - apply Exists_cons_tl. apply Exists_cons_hd. reflexivity.
Defined.
